(** * Spot-it deck from a finite projective plane: the builder and the verifier

    A shallow embedding of [src/components/Card.js] (the part after the
    [Card] component: [SYMBOLS], [generateCardSymbols],
    [constructProjectivePlane], [verifyProjectivePlane] and the start-up
    effect of [App]), and the properties the specification states of it.

    Conventions of the embedding.
    - A JavaScript number that holds an integer is a [Z]; the order, the loop
      counters, the coordinates and the point indices are all such numbers
      ([findIndex] answers [-1] when nothing matches, so indices are signed).
      Integer arithmetic is exact, as it is in JavaScript below 2^53.
    - An array is a [list]: [a.length] is [len a], [a[i]] is [js_get a i]
      ([None] stands for [undefined]), [a.push(x)] is [a ++ [x]], [a.map(f)]
      is [f <$> a].  A [Set] is the list of its members in insertion order.
    - [for (let x = lo; x < hi; x++)] runs its body on [seqZ lo (hi - lo)],
      threading the variables the body assigns.
    - Console output and the [TypeError] raised by reading a property of
      [undefined] are kept in a small writer/exception monad [JS].

    The file has three parts: the embedding of the code, the vocabulary of the
    properties, and the properties: the lemmas, the claims of the
    specification, then further properties of the builder, of the verifier
    and of the button. *)

From stdpp Require Import base decidable option list list_numbers sets strings pretty.
From Stdlib Require Import Znumtheory.

Local Open Scope Z_scope.

(** ** JavaScript values and effects *)

Module Js.

(** What the functions write on the console. *)
Inductive entry : Type :=
| ConsoleError (msg : string)
| ConsoleLog (msg : string)
| ConsoleLogPlane (msg : string) (plane : list (list Z)).

(** How a call ends: with a value, or with an uncaught [TypeError]. *)
Inductive completion (A : Type) : Type :=
| Normal (a : A)
| TypeError.
Arguments Normal {A} a.
Arguments TypeError {A}.

(** A computation: its completion and the console lines it wrote. *)
Definition JS (A : Type) : Type := completion A * list entry.

Definition ret {A} (a : A) : JS A := (Normal a, []).

Definition bind {A B} (f : A → JS B) (m : JS A) : JS B :=
  match m with
  | (Normal a, out) => let '(r, out') := f a in (r, out ++ out')
  | (TypeError, out) => (TypeError, out)
  end.

Definition throw {A} : JS A := (TypeError, []).
Definition console_error (msg : string) : JS unit := (Normal tt, [ConsoleError msg]).
Definition console_log (msg : string) : JS unit := (Normal tt, [ConsoleLog msg]).
Definition console_log_plane (msg : string) (plane : list (list Z)) : JS unit :=
  (Normal tt, [ConsoleLogPlane msg plane]).

(** [a.length] *)
Definition len {A} (a : list A) : Z := Z.of_nat (length a).

(** [a[i]]: [None] is [undefined]. *)
Definition js_get {A} (a : list A) (i : Z) : option A :=
  if bool_decide (i < 0) then None else a !! Z.to_nat i.

(** [a[i].prop]: reading a property of [undefined] throws. *)
Definition elem {A} (a : list (list A)) (i : Z) : JS (list A) :=
  match js_get a i with
  | Some c => ret c
  | None => throw
  end.

(** A [for] loop over the numbers [lo, lo+1, ..., hi-1] whose body only
    assigns local variables (gathered in [s]). *)
Definition for_ {S} (lo hi : Z) (body : Z → S → S) (s : S) : S :=
  foldl (λ s x, body x s) s (seqZ lo (hi - lo)).

(** The same loop when the body writes on the console or may throw. *)
Fixpoint for_each {X S} (xs : list X) (body : X → S → JS S) (s : S) : JS S :=
  match xs with
  | [] => ret s
  | x :: xs => bind (for_each xs body) (body x s)
  end.

Definition forM {S} (lo hi : Z) (body : Z → S → JS S) (s : S) : JS S :=
  for_each (seqZ lo (hi - lo)) body s.

(** [a.filter(cb)] for a callback that may itself read the deck. *)
Fixpoint filterM {A} (cb : A → JS bool) (a : list A) : JS (list A) :=
  match a with
  | [] => ret []
  | x :: a =>
      bind (λ keep : bool,
        bind (λ rest, ret (if keep then x :: rest else rest)) (filterM cb a))
        (cb x)
  end.

(** [a.findIndex(p)]: the first position where [p] holds, or [-1]. *)
Fixpoint findIndex_from {A} (p : A → bool) (a : list A) (i : Z) : Z :=
  match a with
  | [] => -1
  | x :: a => if p x then i else findIndex_from p a (i + 1)
  end.

Definition findIndex {A} (p : A → bool) (a : list A) : Z := findIndex_from p a 0.

(** A number inside a template literal. *)
Definition show (n : Z) : string := pretty n.

End Js.

Export Js.

#[export] Instance entry_eq_dec : EqDecision entry.
Proof. solve_decision. Defined.

#[export] Instance JS_ret : MRet JS := @Js.ret.
#[export] Instance JS_bind : MBind JS := @Js.bind.

(** ** The builder *)

(** A coordinate of a point is a number or the string ['inf']. *)
Inductive coord : Type :=
| Num (z : Z)
| Inf.

#[export] Instance coord_eq_dec : EqDecision coord.
Proof. solve_decision. Defined.

(** [a === b] on coordinates. *)
Definition strict_eq (a b : coord) : bool := bool_decide (a = b).

(** A point is a two-element array. *)
Definition point : Type := coord * coord.

(** [p => p[0] === a && p[1] === b] *)
Definition at_coords (a b : coord) (p : point) : bool :=
  strict_eq p.1 a && strict_eq p.2 b.

Definition add (q a b : Z) : Z := Z.rem (a + b) q.
Definition multiply (q a b : Z) : Z := Z.rem (a * b) q.

(** Lines 42-52: the points, affine ones first. *)
Definition generate_points (q : Z) : list point :=
  let points := [] in
  let points :=
    for_ 0 q (λ x points,
      for_ 0 q (λ y points, points ++ [(Num x, Num y)]) points) points in
  let points := for_ 0 q (λ x points, points ++ [(Num x, Inf)]) points in
  points ++ [(Inf, Inf)].

(** Lines 54-86: the lines, each a list of indices into [points]. *)
Definition generate_lines (q : Z) (points : list point) : list (list Z) :=
  let plane := [] in
  (* lines of the form y = mx + b *)
  let plane :=
    for_ 0 q (λ m plane,
      for_ 0 q (λ b plane,
        let line := [] in
        let line :=
          for_ 0 q (λ x line,
            let y := add q (multiply q m x) b in
            line ++ [findIndex (at_coords (Num x) (Num y)) points]) line in
        let line := line ++ [findIndex (at_coords (Num m) Inf) points] in
        plane ++ [line]) plane) plane in
  (* vertical lines of the form x = k *)
  let plane :=
    for_ 0 q (λ k plane,
      let line := [] in
      let line :=
        for_ 0 q (λ y line,
          line ++ [findIndex (at_coords (Num k) (Num y)) points]) line in
      let line := line ++ [findIndex (at_coords Inf Inf) points] in
      plane ++ [line]) plane in
  (* line at infinity *)
  let infinityLine := [] in
  let infinityLine :=
    for_ 0 q (λ x line, line ++ [findIndex (at_coords (Num x) Inf) points])
      infinityLine in
  let infinityLine := infinityLine ++ [findIndex (at_coords Inf Inf) points] in
  plane ++ [infinityLine].

(** [a.includes(x)], for values on which SameValueZero is plain equality
    (integers, strings, [undefined]). *)
Definition includes {A} `{EqDecision A} (a : list A) (x : A) : bool :=
  bool_decide (x ∈ a).

(** Lines 88-108: the self-check, which only writes on the console. *)
Definition self_check (q n : Z) (plane : list (list Z)) : JS unit :=
  (if bool_decide (len plane ≠ n)
   then console_error ("Generated " +:+ show (len plane) +:+
                       " cards instead of expected " +:+ show n)
   else mret tt);;
  forM 0 (len plane) (λ i _,
    ci ← elem plane i;
    if bool_decide (len ci ≠ q + 1)
    then console_error ("Line " +:+ show i +:+ " has " +:+ show (len ci) +:+
                        " points instead of " +:+ show (q + 1))
    else mret tt) tt;;
  forM 0 (len plane) (λ i _,
    forM (i + 1) (len plane) (λ j _,
      ci ← elem plane i;
      intersection ←
        filterM (λ point, cj ← elem plane j; mret (includes cj point)) ci;
      if bool_decide (len intersection ≠ 1)
      then console_error ("Lines " +:+ show i +:+ " and " +:+ show j +:+
                          " intersect at " +:+ show (len intersection) +:+
                          " points instead of 1")
      else mret tt) tt) tt.

Definition constructProjectivePlane (order : Z) : JS (list (list Z)) :=
  let q := order in
  let n := q * q + q + 1 in
  let points := generate_points q in
  let plane := generate_lines q points in
  self_check q n plane;;
  console_log_plane "Generated plane:" plane;;
  mret plane.

(** ** The verifier *)

Section verifier.
Context {A : Type} `{EqDecision A}.

(** [s.add(x)] on a [Set], kept in insertion order; [s.size] is [len s]. *)
Definition set_add (s : list A) (x : A) : list A :=
  if includes s x then s else s ++ [x].

(** Lines 115-141: the diagnostics gathered in [errors]. *)
Definition verify_errors (plane : list (list A)) : JS (list string) :=
  let n := len plane in
  let q := 7 in
  let expectedN := q * q + q + 1 in
  let errors := [] in
  let totalUniqueSymbols := [] in
  let errors :=
    if bool_decide (n ≠ expectedN)
    then errors ++ ["Total number of cards is " +:+ show n +:+
                    " instead of " +:+ show expectedN]
    else errors in
  '(errors, totalUniqueSymbols) ←
    forM 0 n (λ i '(errors, totalUniqueSymbols),
      ci ← elem plane i;
      let errors :=
        if bool_decide (len ci ≠ q + 1)
        then errors ++ ["Card " +:+ show i +:+ " has " +:+ show (len ci) +:+
                        " symbols instead of " +:+ show (q + 1)]
        else errors in
      let totalUniqueSymbols := foldl set_add totalUniqueSymbols ci in
      errors ←
        forM (i + 1) n (λ j errors,
          ci ← elem plane i;
          intersection ←
            filterM (λ symbol, cj ← elem plane j; mret (includes cj symbol)) ci;
          mret (if bool_decide (len intersection ≠ 1)
                then errors ++ ["Cards " +:+ show i +:+ " and " +:+ show j +:+
                                " share " +:+ show (len intersection) +:+
                                " symbols instead of 1"]
                else errors)) errors;
      mret (errors, totalUniqueSymbols)) (errors, totalUniqueSymbols);
  mret (if bool_decide (len totalUniqueSymbols ≠ expectedN)
        then errors ++ ["Total number of unique symbols is " +:+
                        show (len totalUniqueSymbols) +:+
                        " instead of " +:+ show expectedN]
        else errors).

(** Lines 143-150: the report and the answer. *)
Definition verifyProjectivePlane (plane : list (list A)) : JS bool :=
  errors ← verify_errors plane;
  if bool_decide (len errors > 0)
  then
    console_error "Verification failed:";;
    for_each errors (λ error _, console_error error) tt;;
    mret false
  else
    console_log "Verification passed successfully!";;
    mret true.

End verifier.

(** ** The presentation layer *)

(** What a card shows: a glyph, or [undefined]. *)
Inductive glyph : Type :=
| Undefined
| Str (s : string).

#[export] Instance glyph_eq_dec : EqDecision glyph.
Proof. solve_decision. Defined.

Definition SYMBOLS : list string :=
  [
   "♠"; "♥"; "♦"; "♣"; "♤"; "♡"; "♢"; "♧"; "♚"; "♛"; "♜"; "♝"; "♞"; "♟";
   "☀"; "☁"; "☂"; "☃"; "☄"; "★"; "☆"; "☎"; "☏"; "☐"; "☑"; "☒"; "☓"; "☖";
   "☗"; "☘"; "☙"; "☚"; "☛"; "☜"; "☝"; "☞"; "☟"; "☠"; "☡"; "☢"; "☣"; "☤";
   "☥"; "☦"; "☧"; "☨"; "☩"; "☪"; "☫"; "☬"; "☭"; "☮"; "☯"; "☰"; "☱"; "☲" ].

(** [SYMBOLS[point]] *)
Definition symbol_at (point : Z) : glyph :=
  match js_get SYMBOLS point with
  | Some s => Str s
  | None => Undefined
  end.

Definition generateCardSymbols : JS (list (list glyph)) :=
  let order := 7 in
  projective_plane ← constructProjectivePlane order;
  let allSymbols :=
    (λ line : list Z, (λ point, symbol_at point) <$> line) <$> projective_plane in
  mret allSymbols.

(** The state of [App] and its start-up effect (lines 157-162). *)
Record app_state : Type := AppState {
  cardSymbols : list (list glyph);
  verificationResult : option string;
}.

Definition App_startup : JS app_state :=
  symbols ← generateCardSymbols;
  result ← verifyProjectivePlane symbols;
  mret (AppState symbols
          (Some (if (result : bool) then "Verification passed!" else "Verification failed."))).

(** The state before the start-up effect has run: [useState([])] and
    [useState(null)]. *)
Definition App_initial : app_state := AppState [] None.

(** The handler of the button (lines 164-167). *)
Definition handleVerify (st : app_state) : JS app_state :=
  result ← verifyProjectivePlane (cardSymbols st);
  mret (AppState (cardSymbols st)
          (Some (if (result : bool) then "Verification passed!" else "Verification failed."))).

(** * The vocabulary of the properties *)

(** ** Arrays and messages *)

(** The card at a position, for positions inside the deck. *)
Definition card {A} (plane : list (list A)) (i : Z) : list A :=
  default [] (js_get plane i).

(** The entries of [a] that [b] includes: what
    [a.filter(x => b.includes(x))] returns. *)
Definition common {A} `{EqDecision A} (a b : list A) : list A :=
  filter (λ x, includes b x = true) a.

(** The four messages, for the order 7 the verifier fixes. *)
Definition msg_count (n : Z) : string :=
  "Total number of cards is " +:+ show n +:+ " instead of 57".
Definition msg_card (i k : Z) : string :=
  "Card " +:+ show i +:+ " has " +:+ show k +:+ " symbols instead of 8".
Definition msg_pair (i j k : Z) : string :=
  "Cards " +:+ show i +:+ " and " +:+ show j +:+ " share " +:+ show k +:+
  " symbols instead of 1".
Definition msg_union (k : Z) : string :=
  "Total number of unique symbols is " +:+ show k +:+ " instead of 57".

(** ** The diagnostics of the verifier, check by check *)

Section vocabulary.
Context {A : Type} `{EqDecision A}.
Implicit Types (plane : list (list A)) (c ci cj : list A).

Definition count_diag plane : list string :=
  if bool_decide (len plane ≠ 57) then [msg_count (len plane)] else [].

Definition card_diag (i : Z) c : list string :=
  if bool_decide (len c ≠ 8) then [msg_card i (len c)] else [].

Definition pair_diag (i j : Z) (ci cj : list A) : list string :=
  if bool_decide (len (common ci cj) ≠ 1)
  then [msg_pair i j (len (common ci cj))]
  else [].

(** The number of distinct symbols of a deck. *)
Definition distinct_symbols plane : Z := len (remove_dups (concat plane)).

Definition union_diag plane : list string :=
  if bool_decide (distinct_symbols plane ≠ 57)
  then [msg_union (distinct_symbols plane)]
  else [].

(** All of them, in the order the verifier meets them. *)
Definition diagnostics plane : list string :=
  count_diag plane ++
  (seqZ 0 (len plane) ≫= λ i,
     card_diag i (card plane i) ++
     (seqZ (i + 1) (len plane - (i + 1)) ≫= λ j,
        pair_diag i j (card plane i) (card plane j))) ++
  union_diag plane.

(** The four checks, stated on the deck. *)
Definition count_ok plane : Prop := len plane = 57.
Definition sizes_ok plane : Prop :=
  ∀ (i : nat) c, plane !! i = Some c → len c = 8.
Definition pairs_ok plane : Prop :=
  ∀ (i j : nat) ci cj, (i < j)%nat →
    plane !! i = Some ci → plane !! j = Some cj → len (common ci cj) = 1.
Definition union_ok plane : Prop := distinct_symbols plane = 57.

(** The positions [(i, j)] with [i < j < n]. *)
Definition index_pairs (n : Z) : list (Z * Z) :=
  seqZ 0 n ≫= λ i, seqZ (i + 1) (n - (i + 1)) ≫= λ j, [(i, j)].

Definition bad_card plane (i : Z) : Prop := len (card plane i) ≠ 8.
Definition bad_pair plane (p : Z * Z) : Prop :=
  len (common (card plane p.1) (card plane p.2)) ≠ 1.

(** The number of violations the four checks meet on a deck. *)
Definition violations plane : nat :=
  (if bool_decide (len plane ≠ 57) then 1 else 0) +
  length (filter (bad_card plane) (seqZ 0 (len plane))) +
  length (filter (bad_pair plane) (index_pairs (len plane))) +
  (if bool_decide (distinct_symbols plane ≠ 57) then 1 else 0).

(** The symbol sets of two cards meet in exactly one symbol. *)
Definition share_exactly_one (ci cj : list A) : Prop :=
  ∃ s, s ∈ ci ∧ s ∈ cj ∧ ∀ t, t ∈ ci → t ∈ cj → t = s.

(** The four invariants of a deck of order [q] (specification, section 3). *)
Definition valid_deck (q : Z) plane : Prop :=
  len plane = q * q + q + 1 ∧
  (∀ c, c ∈ plane → len c = q + 1 ∧ NoDup c) ∧
  (∀ (i j : nat) ci cj, i ≠ j →
     plane !! i = Some ci → plane !! j = Some cj → share_exactly_one ci cj) ∧
  distinct_symbols plane = q * q + q + 1.

End vocabulary.

(** ** Relabelling the symbols of a deck *)

Section relabelling.
Context {A B : Type} (f : A → B).

(** [f] tells apart the symbols of [l]. *)
Definition inj_on (l : list A) : Prop := ∀ a b, a ∈ l → b ∈ l → f a = f b → a = b.

Definition relabel (plane : list (list A)) : list (list B) :=
  (λ c : list A, f <$> c) <$> plane.

End relabelling.

(** ** The builder, loop by loop *)

(** The two families of points that the loops enumerate before
    [(inf, inf)]. *)
Definition affine_points (q : Z) : list point :=
  seqZ 0 q ≫= λ x, seqZ 0 q ≫= λ y, [(Num x, Num y)].
Definition slope_points (q : Z) : list point :=
  seqZ 0 q ≫= λ x, [(Num x, Inf)].

(** The three kinds of line, as the loops build them. *)
Definition slanted_line (q : Z) (points : list point) (m b : Z) : list Z :=
  for_ 0 q (λ x line,
    line ++ [findIndex (at_coords (Num x) (Num (add q (multiply q m x) b))) points]) []
  ++ [findIndex (at_coords (Num m) Inf) points].

Definition vertical_line (q : Z) (points : list point) (k : Z) : list Z :=
  for_ 0 q (λ y line, line ++ [findIndex (at_coords (Num k) (Num y)) points]) []
  ++ [findIndex (at_coords Inf Inf) points].

Definition infinity_line (q : Z) (points : list point) : list Z :=
  for_ 0 q (λ x line, line ++ [findIndex (at_coords (Num x) Inf) points]) []
  ++ [findIndex (at_coords Inf Inf) points].

(** The deck of the specification, section 4.1: the same three families of
    lines, each point index computed by its closed form instead of
    searched. *)
Definition closed_form_lines (q : Z) : list (list Z) :=
  (seqZ 0 q ≫= λ m, seqZ 0 q ≫= λ b,
     [((λ x, x * q + (m * x + b) `mod` q) <$> seqZ 0 q) ++ [q * q + m]]) ++
  (seqZ 0 q ≫= λ k, [((λ y, k * q + y) <$> seqZ 0 q) ++ [q * q + q]]) ++
  [((λ x, q * q + x) <$> seqZ 0 q) ++ [q * q + q]].

(** What the self-check prints, check by check. *)
Definition build_count_diag (n : Z) (plane : list (list Z)) : list string :=
  if bool_decide (len plane ≠ n)
  then ["Generated " +:+ show (len plane) +:+ " cards instead of expected " +:+
        show n]
  else [].

Definition build_line_diag (q i : Z) (c : list Z) : list string :=
  if bool_decide (len c ≠ q + 1)
  then ["Line " +:+ show i +:+ " has " +:+ show (len c) +:+
        " points instead of " +:+ show (q + 1)]
  else [].

Definition build_pair_diag (i j : Z) (ci cj : list Z) : list string :=
  if bool_decide (len (common ci cj) ≠ 1)
  then ["Lines " +:+ show i +:+ " and " +:+ show j +:+ " intersect at " +:+
        show (len (common ci cj)) +:+ " points instead of 1"]
  else [].

(** All of them, in the order the self-check prints them. *)
Definition build_diagnostics (q n : Z) (plane : list (list Z)) : list string :=
  build_count_diag n plane ++
  (seqZ 0 (len plane) ≫= λ i, build_line_diag q i (card plane i)) ++
  (seqZ 0 (len plane) ≫= λ i, seqZ (i + 1) (len plane - (i + 1)) ≫= λ j,
     build_pair_diag i j (card plane i) (card plane j)).

(** ** Decks at hand *)

(** The orders the specification tests. *)
Definition test_orders : list Z := [2; 3; 5; 7].

(** The deck of order 7, the one the application shows. *)
Definition reference_deck : list (list Z) := generate_lines 7 (generate_points 7).

(** The deck of order 2, the Fano plane. *)
Definition fano_deck : list (list Z) :=
  [[0; 2; 4]; [1; 3; 4]; [0; 3; 5]; [1; 2; 5]; [0; 1; 6]; [2; 3; 6]; [4; 5; 6]].

(** ** Checking a concrete deck by evaluation *)

Section all_pairs_def.
Context {A : Type} (R : A → A → Prop) `{∀ x y, Decision (R x y)}.

(** [R] holds of every two elements, the earlier one first. *)
Fixpoint all_pairs (l : list A) : Prop :=
  match l with
  | [] => True
  | x :: l => Forall (R x) l ∧ all_pairs l
  end.

#[export] Instance all_pairs_dec l : Decision (all_pairs l).
Proof. induction l; simpl; apply _. Defined.

End all_pairs_def.

Ltac each_test_order H :=
  unfold test_orders in H;
  repeat (apply elem_of_cons in H as [->|H]);
  [..|by apply elem_of_nil in H].

Ltac by_evaluation := apply (bool_decide_unpack _); vm_compute; exact I.

(** ** The lines of the plane, named *)

(** A line of the plane: [y = m·x + b], [x = k], or the line at infinity. *)
Inductive line_id : Type :=
| Slanted (m b : Z)
| Vertical (k : Z)
| Infinity.

#[export] Instance line_id_eq_dec : EqDecision line_id.
Proof. solve_decision. Defined.

(** The card of a line, by the closed form of the indices. *)
Definition line_of (q : Z) (d : line_id) : list Z :=
  match d with
  | Slanted m b => ((λ x, x * q + (m * x + b) `mod` q) <$> seqZ 0 q) ++ [q * q + m]
  | Vertical k => ((λ y, k * q + y) <$> seqZ 0 q) ++ [q * q + q]
  | Infinity => ((λ x, q * q + x) <$> seqZ 0 q) ++ [q * q + q]
  end.

(** The lines in the order of the deck. *)
Definition line_ids (q : Z) : list line_id :=
  (seqZ 0 q ≫= λ m, seqZ 0 q ≫= λ b, [Slanted m b]) ++
  (seqZ 0 q ≫= λ k, [Vertical k]) ++
  [Infinity].

(** The lines of the plane of order [q]. *)
Definition in_plane (q : Z) (d : line_id) : Prop :=
  match d with
  | Slanted m b => 0 ≤ m < q ∧ 0 ≤ b < q
  | Vertical k => 0 ≤ k < q
  | Infinity => True
  end.

(** The message of the self-check for two lines that do not meet once. *)
Definition build_pair_msg (i j k : Z) : string :=
  "Lines " +:+ show i +:+ " and " +:+ show j +:+ " intersect at " +:+ show k +:+
  " points instead of 1".

(** ** More decks at hand *)

(** 57 cards of 8 entries over 57 symbols, each card but the last repeating
    a symbol of its own seven times beside the symbol 0 they all carry. *)
Definition repeating_deck : list (list Z) :=
  ((λ k, 0 :: replicate 7 (k + 1)) <$> seqZ 0 56) ++ [replicate 8 0].

(** * Properties *)

(** ** Loops *)

Section loops.
Context {X S : Type}.

Lemma bind_normal {A B} (f : A → JS B) (a : A) :
  (Normal a, []) ≫= f = f a.
Proof. unfold mbind, JS_bind, bind. destruct (f a) as [r out]. done. Qed.

Lemma foldl_ext_in (f g : S → X → S) (xs : list X) (s : S) :
  (∀ x s, x ∈ xs → f s x = g s x) → foldl f s xs = foldl g s xs.
Proof.
  revert s. induction xs as [|x xs IH]; intros s Hfg; simpl; [done|].
  rewrite Hfg by left. apply IH. intros; apply Hfg; by right.
Qed.

(** A loop whose body neither prints nor throws is a fold. *)
Lemma for_each_pure (xs : list X) (body : X → S → JS S) (f : X → S → S) (s : S) :
  (∀ x s, x ∈ xs → body x s = (Normal (f x s), [])) →
  for_each xs body s = (Normal (foldl (λ s x, f x s) s xs), []).
Proof.
  revert s. induction xs as [|x xs IH]; intros s Hb; simpl; [done|].
  rewrite Hb by left. simpl. rewrite IH; [done|].
  intros; apply Hb; by right.
Qed.

(** A loop that only pushes on an array builds a comprehension. *)
Lemma foldl_push {B} (g : X → list B) (xs : list X) (acc : list B) :
  foldl (λ acc x, acc ++ g x) acc xs = acc ++ (xs ≫= g).
Proof.
  revert acc. induction xs as [|x xs IH]; intros acc; simpl.
  - by rewrite app_nil_r.
  - by rewrite IH, app_assoc.
Qed.

Lemma foldl_push_pair {B} (g : X → list B) (h : X → S → S) xs acc (s : S) :
  foldl (λ p x, (p.1 ++ g x, h x p.2)) (acc, s) xs
  = (acc ++ (xs ≫= g), foldl (λ s x, h x s) s xs).
Proof.
  revert acc s. induction xs as [|x xs IH]; intros acc s; simpl.
  - by rewrite app_nil_r.
  - by rewrite IH, app_assoc.
Qed.
End loops.

(** A loop on the state [tt] that only prints. *)
Lemma for_each_print {X} (xs : list X) (body : X → unit → JS unit) (o : X → list entry) :
  (∀ x, x ∈ xs → body x tt = (Normal tt, o x)) →
  for_each xs body tt = (Normal tt, xs ≫= o).
Proof.
  induction xs as [|x xs IH]; intros Hb; simpl; [done|].
  rewrite Hb by left. simpl. rewrite IH; [done|].
  intros; apply Hb; by right.
Qed.

Lemma for_push {B} (lo hi : Z) (g : Z → list B) (acc : list B) :
  for_ lo hi (λ x acc, acc ++ g x) acc = acc ++ (seqZ lo (hi - lo) ≫= g).
Proof. apply foldl_push. Qed.

(** ** Arrays *)

Lemma js_get_lookup {A} (a : list A) (i : nat) : js_get a (Z.of_nat i) = a !! i.
Proof.
  unfold js_get. rewrite bool_decide_eq_false_2 by lia. by rewrite Nat2Z.id.
Qed.

Lemma js_get_in_range {A} (a : list A) (i : Z) :
  0 ≤ i < len a → ∃ x, js_get a i = Some x ∧ a !! Z.to_nat i = Some x.
Proof.
  unfold len, js_get. intros Hi. rewrite bool_decide_eq_false_2 by lia.
  destruct (lookup_lt_is_Some_2 a (Z.to_nat i)) as [x Hx]; [lia|]. eauto.
Qed.

Lemma elem_in_range {A} (plane : list (list A)) (i : Z) :
  0 ≤ i < len plane → elem plane i = (Normal (card plane i), []).
Proof.
  intros Hi. destruct (js_get_in_range plane i Hi) as (c & Hc & _).
  unfold elem, card. by rewrite Hc.
Qed.

Lemma card_lookup {A} (plane : list (list A)) (i : nat) (c : list A) :
  plane !! i = Some c → card plane (Z.of_nat i) = c.
Proof. intros Hc. unfold card. by rewrite js_get_lookup, Hc. Qed.

Lemma lookup_card {A} (plane : list (list A)) (i : Z) :
  0 ≤ i < len plane → plane !! Z.to_nat i = Some (card plane i).
Proof.
  intros Hi. destruct (js_get_in_range plane i Hi) as (c & Hc & Hl).
  unfold card. by rewrite Hc.
Qed.

Lemma filterM_pure {A} (cb : A → JS bool) (keep : A → bool) (a : list A) :
  (∀ x, x ∈ a → cb x = (Normal (keep x), [])) →
  filterM cb a = (Normal (filter (λ x, keep x = true) a), []).
Proof.
  induction a as [|x a IH]; intros Hcb; [done|]. simpl.
  rewrite Hcb by left. rewrite IH by (intros; apply Hcb; by right).
  simpl. rewrite filter_cons. by destruct (keep x).
Qed.

Lemma filterM_includes {A} `{EqDecision A} (plane : list (list A)) (j : Z) ci :
  0 ≤ j < len plane →
  filterM (λ x, cj ← elem plane j; mret (includes cj x)) ci
  = (Normal (common ci (card plane j)), []).
Proof.
  intros Hj. apply filterM_pure. intros x _.
  by rewrite elem_in_range, bind_normal.
Qed.

Lemma cards_seqZ {A} (plane : list (list A)) :
  card plane <$> seqZ 0 (len plane) = plane.
Proof.
  apply list_eq. intros i. rewrite list_lookup_fmap.
  destruct (plane !! i) as [c|] eqn:Hc.
  - assert (i < length plane)%nat by (by eapply lookup_lt_Some).
    rewrite lookup_seqZ_lt by (unfold len; lia). simpl.
    f_equal. by apply card_lookup.
  - apply lookup_ge_None in Hc.
    rewrite lookup_seqZ_ge by (unfold len; lia). done.
Qed.

(** ** What the verifier gathers *)

Section verifier_spec.
Context {A : Type} `{EqDecision A}.
Implicit Types (plane : list (list A)) (c : list A) (s : list A).

(** *** The set of symbols seen *)

Lemma set_add_spec s x :
  NoDup s → NoDup (set_add s x) ∧ ∀ y, y ∈ set_add s x ↔ y ∈ s ∨ y = x.
Proof.
  intros Hs. unfold set_add, includes. case_bool_decide as Hx.
  - split; [done|]. intros y. naive_solver.
  - split.
    + apply NoDup_app. split_and!; [done| |apply NoDup_singleton].
      intros y Hy ->%list_elem_of_singleton. done.
    + intros y. rewrite elem_of_app, list_elem_of_singleton. done.
Qed.

Lemma foldl_set_add_spec c s :
  NoDup s →
  NoDup (foldl set_add s c) ∧ ∀ y, y ∈ foldl set_add s c ↔ y ∈ s ∨ y ∈ c.
Proof.
  revert s. induction c as [|x c IH]; intros s Hs; simpl.
  - split; [done|]. intros y. rewrite elem_of_nil. naive_solver.
  - destruct (set_add_spec s x Hs) as [Hnd Hin].
    destruct (IH _ Hnd) as [Hnd' Hin']. split; [done|].
    intros y. rewrite Hin', Hin, elem_of_cons. naive_solver.
Qed.

(** The size of the [Set] is the number of distinct symbols pushed. *)
Lemma foldl_set_add_length c :
  length (foldl set_add [] c) = length (remove_dups c).
Proof.
  destruct (foldl_set_add_spec c [] (NoDup_nil_2)) as [Hnd Hin].
  apply Permutation_length, NoDup_Permutation;
    [done|apply NoDup_remove_dups|].
  intros y. rewrite Hin, elem_of_remove_dups, elem_of_nil. naive_solver.
Qed.

Lemma foldl_set_add_len c :
  len (foldl set_add [] c) = len (remove_dups c).
Proof. unfold len. by rewrite foldl_set_add_length. Qed.

Lemma foldl_concat {B} (f : B → A → B) (b : B) (l : list (list A)) :
  foldl (λ b c, foldl f b c) b l = foldl f b (concat l).
Proof.
  revert b. induction l as [|c l IH]; intros b; simpl; [done|].
  by rewrite foldl_app, IH.
Qed.

Lemma total_symbols plane :
  foldl (λ s i, foldl set_add s (card plane i)) [] (seqZ 0 (len plane))
  = foldl set_add [] (concat plane).
Proof.
  rewrite <-(foldl_fmap (λ s c, foldl set_add s c) [] (seqZ 0 (len plane)) (card plane)).
  rewrite cards_seqZ. apply foldl_concat.
Qed.

(** *** The diagnostics, check by check *)

Lemma verify_errors_eq plane :
  verify_errors plane = (Normal (diagnostics plane), []).
Proof.
  unfold verify_errors, forM.
  set (n := len plane).
  erewrite (for_each_pure _ _
    (λ i (p : list string * list A),
       (p.1 ++ (card_diag i (card plane i) ++
                (seqZ (i + 1) (n - (i + 1)) ≫= λ j,
                   pair_diag i j (card plane i) (card plane j))),
        foldl set_add p.2 (card plane i)))).
  - rewrite bind_normal.
    rewrite (foldl_push_pair
      (λ i, card_diag i (card plane i) ++
            (seqZ (i + 1) (n - (i + 1)) ≫= λ j,
               pair_diag i j (card plane i) (card plane j)))
      (λ i s, foldl set_add s (card plane i))).
    cbv beta iota zeta. rewrite Z.sub_0_r. subst n.
    rewrite total_symbols, foldl_set_add_len.
    unfold diagnostics, count_diag, union_diag, distinct_symbols.
    change (7 * 7 + 7 + 1) with 57.
    unfold mret, JS_ret, ret. f_equal. rewrite app_assoc.
    repeat case_bool_decide; rewrite ?app_nil_r; reflexivity.
  - intros i [errors total] [Hi1 Hi2]%elem_of_seqZ.
    rewrite elem_in_range by lia. rewrite bind_normal.
    erewrite (for_each_pure _ _
      (λ j (errors : list string),
         errors ++ pair_diag i j (card plane i) (card plane j))).
    + rewrite bind_normal, foldl_push. unfold mret, JS_ret, ret.
      unfold card_diag. change (7 + 1) with 8. cbv beta iota zeta.
      f_equal. f_equal. rewrite app_assoc. f_equal.
      case_bool_decide; rewrite ?app_nil_r; reflexivity.
    + intros j errs [Hj1 Hj2]%elem_of_seqZ.
      rewrite bind_normal, filterM_includes by (fold n; lia).
      rewrite bind_normal.
      unfold mret, JS_ret, ret, pair_diag. cbv beta iota zeta. f_equal.
      case_bool_decide; rewrite ?app_nil_r; reflexivity.
Qed.

End verifier_spec.

(** ** Comprehensions *)

Lemma bind_nil_iff {X B} (f : X → list B) (l : list X) :
  l ≫= f = [] ↔ ∀ x, x ∈ l → f x = [].
Proof.
  induction l as [|x l IH].
  - split; [|done]. intros _ x Hx. by apply elem_of_nil in Hx.
  - rewrite bind_cons. split.
    + intros [Hx Hl]%app_eq_nil y [->|Hy]%elem_of_cons; [done|].
      by apply IH.
    + intros Hf. apply app_nil. split; [apply Hf; left|].
      apply IH. intros; apply Hf; by right.
Qed.

Lemma length_bind_app {X B} (f g : X → list B) (l : list X) :
  length (l ≫= λ x, f x ++ g x) = (length (l ≫= f) + length (l ≫= g))%nat.
Proof.
  induction l as [|x l IH]; [done|].
  rewrite !bind_cons, !length_app, IH. lia.
Qed.

Lemma length_bind_if {X B} (P : X → Prop) `{∀ x, Decision (P x)}
    (m : X → B) (l : list X) :
  length (l ≫= λ x, if bool_decide (P x) then [m x] else []) = length (filter P l).
Proof.
  induction l as [|x l IH]; [done|].
  rewrite bind_cons, length_app, IH, filter_cons.
  case_bool_decide; destruct (decide (P x)); done.
Qed.

Lemma fmap_bind {X B C} (f : B → C) (g : X → list B) (l : list X) :
  f <$> (l ≫= g) = l ≫= λ x, f <$> g x.
Proof.
  induction l as [|x l IH]; [done|]. by rewrite !bind_cons, fmap_app, IH.
Qed.

Lemma if_ne_nil {B} (a b : Z) (m : B) :
  (if bool_decide (a ≠ b) then [m] else []) = [] ↔ a = b.
Proof. case_bool_decide; split; (done || lia). Qed.

Lemma if_ne_elem {B} (a b : Z) (m : B) :
  a ≠ b → m ∈ (if bool_decide (a ≠ b) then [m] else []).
Proof. intros. rewrite bool_decide_eq_true_2 by done. left. Qed.

(** ** The verifier: answer, report and checks *)

Section verifier_facts.
Context {A : Type} `{EqDecision A}.
Implicit Types (plane : list (list A)) (c ci cj : list A) (s t : A).

Lemma verify_run plane :
  verifyProjectivePlane plane =
    if bool_decide (diagnostics plane = [])
    then (Normal true, [ConsoleLog "Verification passed successfully!"])
    else (Normal false,
          ConsoleError "Verification failed:" :: (ConsoleError <$> diagnostics plane)).
Proof.
  unfold verifyProjectivePlane. rewrite verify_errors_eq, bind_normal.
  destruct (diagnostics plane) as [|d ds] eqn:Hd.
  - reflexivity.
  - rewrite bool_decide_eq_true_2 by (unfold len; simpl; lia).
    rewrite bool_decide_eq_false_2 by done.
    rewrite (for_each_print _ _ (λ e, [ConsoleError e])) by done.
    unfold mbind, JS_bind, bind, mret, JS_ret, ret, console_error.
    simpl. f_equal. f_equal. f_equal. rewrite app_nil_r.
    clear. induction ds as [|e ds IH]; simpl; [done|]. by rewrite IH.
Qed.

Lemma diagnostics_nil plane :
  diagnostics plane = [] ↔
  count_ok plane ∧ sizes_ok plane ∧ pairs_ok plane ∧ union_ok plane.
Proof.
  unfold diagnostics, count_ok, sizes_ok, pairs_ok, union_ok.
  rewrite !app_nil, bind_nil_iff.
  setoid_rewrite app_nil. setoid_rewrite bind_nil_iff.
  unfold count_diag, card_diag, pair_diag, union_diag.
  rewrite !if_ne_nil. setoid_rewrite if_ne_nil.
  split.
  - intros (Hc & Hm & Hu). split_and!; [done| | |done].
    + intros i c Hic.
      assert (i < length plane)%nat by (by eapply lookup_lt_Some).
      destruct (Hm (Z.of_nat i)) as [Hk _].
      { apply elem_of_seqZ. unfold len. lia. }
      by rewrite (card_lookup _ _ _ Hic) in Hk.
    + intros i j ci cj Hij Hi Hj.
      assert (j < length plane)%nat by (by eapply lookup_lt_Some).
      destruct (Hm (Z.of_nat i)) as [_ Hp].
      { apply elem_of_seqZ. unfold len. lia. }
      specialize (Hp (Z.of_nat j)).
      rewrite (card_lookup _ _ _ Hi), (card_lookup _ _ _ Hj) in Hp.
      apply Hp, elem_of_seqZ. unfold len. lia.
  - intros (Hc & Hs & Hp & Hu). split_and!; [done| |done].
    intros i [Hi1 Hi2]%elem_of_seqZ.
    pose proof (lookup_card plane i ltac:(lia)) as Hi. split.
    + by eapply Hs.
    + intros j [Hj1 Hj2]%elem_of_seqZ.
      pose proof (lookup_card plane j ltac:(lia)) as Hj.
      eapply Hp; [|done..]. lia.
Qed.

(** *** Every violation is reported *)

Lemma diag_count_in plane :
  len plane ≠ 57 → msg_count (len plane) ∈ diagnostics plane.
Proof.
  intros Hn. unfold diagnostics. apply elem_of_app. left.
  by apply if_ne_elem.
Qed.

Lemma diag_union_in plane :
  distinct_symbols plane ≠ 57 →
  msg_union (distinct_symbols plane) ∈ diagnostics plane.
Proof.
  intros Hn. unfold diagnostics. rewrite !elem_of_app. right. right.
  by apply if_ne_elem.
Qed.

Lemma diag_card_in plane (i : nat) c :
  plane !! i = Some c → len c ≠ 8 →
  msg_card (Z.of_nat i) (len c) ∈ diagnostics plane.
Proof.
  intros Hi Hn. unfold diagnostics. rewrite !elem_of_app. right. left.
  assert (i < length plane)%nat by (by eapply lookup_lt_Some).
  apply list_elem_of_bind. exists (Z.of_nat i). split.
  - rewrite (card_lookup _ _ _ Hi). apply elem_of_app. left.
    by apply if_ne_elem.
  - apply elem_of_seqZ. unfold len. lia.
Qed.

Lemma diag_pair_in plane (i j : nat) ci cj :
  (i < j)%nat → plane !! i = Some ci → plane !! j = Some cj →
  len (common ci cj) ≠ 1 →
  msg_pair (Z.of_nat i) (Z.of_nat j) (len (common ci cj)) ∈ diagnostics plane.
Proof.
  intros Hij Hi Hj Hn. unfold diagnostics. rewrite !elem_of_app. right. left.
  assert (j < length plane)%nat by (by eapply lookup_lt_Some).
  apply list_elem_of_bind. exists (Z.of_nat i). split.
  - rewrite (card_lookup _ _ _ Hi). apply elem_of_app. right.
    apply list_elem_of_bind. exists (Z.of_nat j). split.
    + rewrite (card_lookup _ _ _ Hj). by apply if_ne_elem.
    + apply elem_of_seqZ. unfold len. lia.
  - apply elem_of_seqZ. unfold len. lia.
Qed.

(** *** One diagnostic for each violation *)

Lemma length_pair_diags plane (i : Z) (js : list Z) :
  length (js ≫= λ j, pair_diag i j (card plane i) (card plane j))
  = length (filter (bad_pair plane) (js ≫= λ j, [(i, j)])).
Proof.
  induction js as [|j js IH]; [done|].
  rewrite !bind_cons, filter_app, !length_app, IH. f_equal.
  unfold pair_diag. rewrite filter_cons, filter_nil.
  case_bool_decide; destruct (decide (bad_pair plane (i, j))); done.
Qed.

Lemma diagnostics_length plane :
  length (diagnostics plane) = violations plane.
Proof.
  unfold diagnostics, violations. rewrite !length_app, length_bind_app.
  unfold card_diag at 1.
  rewrite (length_bind_if (bad_card plane) (λ i, msg_card i (len (card plane i)))).
  assert (∀ is_,
    length (is_ ≫= λ i, seqZ (i + 1) (len plane - (i + 1)) ≫= λ j,
              pair_diag i j (card plane i) (card plane j))
    = length (filter (bad_pair plane)
        (is_ ≫= λ i, seqZ (i + 1) (len plane - (i + 1)) ≫= λ j, [(i, j)])))
    as ->.
  { induction is_ as [|i is_ IH]; [done|].
    by rewrite !bind_cons, filter_app, !length_app, IH, length_pair_diags. }
  fold (index_pairs (len plane)).
  unfold count_diag, union_diag. repeat case_bool_decide; simpl; lia.
Qed.

(** *** The pair check and the intersection of the symbol sets *)

Lemma elem_of_common ci cj s : s ∈ common ci cj ↔ s ∈ ci ∧ s ∈ cj.
Proof.
  unfold common, includes. rewrite list_elem_of_filter, bool_decide_eq_true.
  naive_solver.
Qed.

Lemma share_exactly_one_sym ci cj :
  share_exactly_one ci cj → share_exactly_one cj ci.
Proof. intros (s & ? & ? & Hs). exists s. naive_solver. Qed.

Lemma common_one_share ci cj :
  len (common ci cj) = 1 → share_exactly_one ci cj.
Proof.
  unfold len. intros Hl.
  destruct (common ci cj) as [|s [|? ?]] eqn:Hc; simpl in Hl; try lia.
  exists s. split_and!.
  - apply (elem_of_common ci cj). rewrite Hc. left.
  - apply (elem_of_common ci cj). rewrite Hc. left.
  - intros t Hi Hj.
    assert (t ∈ common ci cj) as Ht by (by apply elem_of_common).
    rewrite Hc in Ht. by apply list_elem_of_singleton in Ht.
Qed.

Lemma share_common_one ci cj :
  NoDup ci → share_exactly_one ci cj → len (common ci cj) = 1.
Proof.
  intros Hnd (s & Hi & Hj & Hs).
  assert (NoDup (common ci cj)) as Hnd' by (by apply NoDup_filter).
  assert (s ∈ common ci cj) as Hin by (by apply elem_of_common).
  assert (∀ t, t ∈ common ci cj → t = s) as Hall.
  { intros t [? ?]%elem_of_common. by apply Hs. }
  unfold len. destruct (common ci cj) as [|a [|b l]]; simpl.
  - by apply elem_of_nil in Hin.
  - done.
  - rewrite (Hall a) in Hnd' by left.
    rewrite (Hall b) in Hnd' by (right; left).
    apply NoDup_cons_1_1 in Hnd'. destruct Hnd'. left.
Qed.


End verifier_facts.

(** ** The builder: the points and their indices *)

Lemma for_ext {S} (lo hi : Z) (body body' : Z → S → S) (s : S) :
  (∀ x s, body x s = body' x s) → for_ lo hi body s = for_ lo hi body' s.
Proof. intros Hb. unfold for_. apply foldl_ext_in. intros; apply Hb. Qed.

Lemma bind_singletons {X B} (g : X → B) (l : list X) :
  l ≫= (λ x, [g x]) = g <$> l.
Proof. induction l as [|x l IH]; [done|]. by rewrite bind_cons, IH. Qed.

Lemma length_bind_const {X B} (f : X → list B) (m : nat) (l : list X) :
  (∀ x, length (f x) = m) → length (l ≫= f) = (length l * m)%nat.
Proof.
  intros Hf. induction l as [|x l IH]; [done|].
  rewrite bind_cons, length_app, Hf, IH. simpl. lia.
Qed.

Lemma lookup_bind_const {X B} (f : X → list B) (m : nat) (l : list X) (i j : nat) :
  (∀ x, length (f x) = m) → (j < m)%nat →
  (l ≫= f) !! (i * m + j)%nat = l !! i ≫= λ x, f x !! j.
Proof.
  intros Hf Hj. revert i. induction l as [|x l IH]; intros i; [done|].
  rewrite bind_cons. destruct i as [|i]; simpl.
  - by rewrite lookup_app_l by (rewrite Hf; lia).
  - rewrite lookup_app_r by (rewrite Hf; lia). rewrite Hf.
    replace (m + i * m + j - m)%nat with (i * m + j)%nat by lia. apply IH.
Qed.

Lemma generate_points_eq q :
  generate_points q = affine_points q ++ slope_points q ++ [(Inf, Inf)].
Proof.
  unfold generate_points.
  rewrite (for_push 0 q (λ x, [(Num x, Inf)])).
  rewrite (for_ext _ _ _
    (λ x points, points ++ (seqZ 0 (q - 0) ≫= λ y, [(Num x, Num y)])))
    by (intros x s; apply (for_push 0 q (λ y, [(Num x, Num y)]))).
  rewrite (for_push 0 q (λ x, seqZ 0 (q - 0) ≫= λ y, [(Num x, Num y)])).
  rewrite Z.sub_0_r. simpl. by rewrite <-app_assoc.
Qed.

Lemma elem_of_affine_points q p :
  p ∈ affine_points q ↔ ∃ x y, p = (Num x, Num y) ∧ 0 ≤ x < q ∧ 0 ≤ y < q.
Proof.
  unfold affine_points. rewrite list_elem_of_bind. split.
  - intros (x & (y & ->%list_elem_of_singleton & Hy%elem_of_seqZ)%list_elem_of_bind
              & Hx%elem_of_seqZ).
    exists x, y. split; [done|lia].
  - intros (x & y & -> & Hx & Hy). exists x. split.
    + apply list_elem_of_bind. exists y. split; [left|].
      apply elem_of_seqZ. lia.
    + apply elem_of_seqZ. lia.
Qed.

Lemma elem_of_slope_points q p :
  p ∈ slope_points q ↔ ∃ x, p = (Num x, Inf) ∧ 0 ≤ x < q.
Proof.
  unfold slope_points. rewrite list_elem_of_bind. split.
  - intros (x & ->%list_elem_of_singleton & Hx%elem_of_seqZ).
    exists x. split; [done|lia].
  - intros (x & -> & Hx). exists x. split; [left|]. apply elem_of_seqZ. lia.
Qed.

Lemma length_affine_points q :
  length (affine_points q) = (Z.to_nat q * Z.to_nat q)%nat.
Proof.
  unfold affine_points.
  rewrite (length_bind_const _ (Z.to_nat q)), length_seqZ; [done|].
  intros x. by rewrite bind_singletons, length_fmap, length_seqZ.
Qed.

Lemma length_slope_points q : length (slope_points q) = Z.to_nat q.
Proof.
  unfold slope_points. by rewrite bind_singletons, length_fmap, length_seqZ.
Qed.

(** No point is enumerated twice. *)
Lemma NoDup_generate_points q : NoDup (generate_points q).
Proof.
  rewrite generate_points_eq. apply NoDup_app. split_and!.
  - apply NoDup_bind; [| |apply NoDup_seqZ].
    + intros x1 x2 p _ _
        (y1 & ->%list_elem_of_singleton & _)%list_elem_of_bind
        (y2 & [= <- _]%list_elem_of_singleton & _)%list_elem_of_bind.
      done.
    + intros x _. rewrite bind_singletons.
      apply NoDup_fmap_2_strong; [|apply NoDup_seqZ].
      by intros y1 y2 _ _ [= ->].
  - intros p (x & y & -> & _)%elem_of_affine_points
      [(x' & [=] & _)%elem_of_slope_points|[=]%list_elem_of_singleton]%elem_of_app.
  - apply NoDup_app. split_and!.
    + unfold slope_points. rewrite bind_singletons.
      apply NoDup_fmap_2_strong; [|apply NoDup_seqZ].
      by intros y1 y2 _ _ [= ->].
    + intros p (x & -> & _)%elem_of_slope_points [=]%list_elem_of_singleton.
    + apply NoDup_singleton.
Qed.

(** *** Where each point sits *)

Lemma lookup_affine_point (n i j : nat) :
  (i < n)%nat → (j < n)%nat →
  generate_points (Z.of_nat n) !! (i * n + j)%nat
  = Some (Num (Z.of_nat i), Num (Z.of_nat j)).
Proof.
  intros Hi Hj. rewrite generate_points_eq.
  rewrite lookup_app_l by (rewrite length_affine_points; nia).
  unfold affine_points.
  rewrite (lookup_bind_const _ n); [|intros x|done].
  - rewrite lookup_seqZ_lt by lia. simpl.
    rewrite bind_singletons, list_lookup_fmap, lookup_seqZ_lt by lia. done.
  - by rewrite bind_singletons, length_fmap, length_seqZ, Nat2Z.id.
Qed.

Lemma lookup_slope_point (n i : nat) :
  (i < n)%nat →
  generate_points (Z.of_nat n) !! (n * n + i)%nat = Some (Num (Z.of_nat i), Inf).
Proof.
  intros Hi. rewrite generate_points_eq.
  rewrite lookup_app_r by (rewrite length_affine_points; lia).
  rewrite length_affine_points, !Nat2Z.id.
  replace (n * n + i - n * n)%nat with i by lia.
  rewrite lookup_app_l by (rewrite length_slope_points; lia).
  unfold slope_points.
  rewrite bind_singletons, list_lookup_fmap, lookup_seqZ_lt by lia. done.
Qed.

Lemma lookup_infinity_point (n : nat) :
  generate_points (Z.of_nat n) !! (n * n + n)%nat = Some (Inf, Inf).
Proof.
  rewrite generate_points_eq, app_assoc.
  rewrite lookup_app_r
    by (rewrite length_app, length_affine_points, length_slope_points; lia).
  rewrite length_app, length_affine_points, length_slope_points, !Nat2Z.id.
  by rewrite Nat.sub_diag.
Qed.

(** *** The linear search *)

Lemma at_coords_true (a b : coord) (p : point) :
  at_coords a b p = true ↔ p = (a, b).
Proof.
  unfold at_coords, strict_eq. destruct p as [p0 p1]. simpl.
  rewrite andb_true_iff, !bool_decide_eq_true. naive_solver.
Qed.

Lemma findIndex_from_lookup (a b : coord) (l : list point) (k : nat) (i : Z) :
  NoDup l → l !! k = Some (a, b) →
  findIndex_from (at_coords a b) l i = i + Z.of_nat k.
Proof.
  revert k i. induction l as [|p l IH]; intros k i Hnd Hk; [done|].
  apply NoDup_cons in Hnd as [Hp Hnd]. destruct k as [|k]; simpl in *.
  - injection Hk as ->.
    rewrite (proj2 (at_coords_true a b (a, b))) by done. lia.
  - destruct (at_coords a b p) eqn:Hab.
    + apply at_coords_true in Hab as ->.
      destruct Hp. by eapply list_elem_of_lookup_2.
    + rewrite (IH k) by done. lia.
Qed.

Lemma findIndex_lookup (a b : coord) (l : list point) (k : nat) :
  NoDup l → l !! k = Some (a, b) → findIndex (at_coords a b) l = Z.of_nat k.
Proof. intros. unfold findIndex. by rewrite (findIndex_from_lookup a b l k). Qed.

(** ** The builder: the lines *)

Lemma line_loop (q : Z) (g : Z → Z) (c : Z) :
  for_ 0 q (λ x line, line ++ [g x]) [] ++ [c] = (g <$> seqZ 0 q) ++ [c].
Proof.
  rewrite (for_push 0 q (λ x, [g x])), Z.sub_0_r, bind_singletons. done.
Qed.

Lemma generate_lines_eq q points :
  generate_lines q points =
    (seqZ 0 q ≫= λ m, seqZ 0 q ≫= λ b, [slanted_line q points m b]) ++
    (seqZ 0 q ≫= λ k, [vertical_line q points k]) ++
    [infinity_line q points].
Proof.
  change (generate_lines q points) with
    (for_ 0 q (λ k plane, plane ++ [vertical_line q points k])
       (for_ 0 q (λ m plane,
          for_ 0 q (λ b plane, plane ++ [slanted_line q points m b]) plane) [])
     ++ [infinity_line q points]).
  rewrite (for_push 0 q (λ k, [vertical_line q points k])).
  rewrite (for_ext _ _ _
    (λ m plane, plane ++ (seqZ 0 (q - 0) ≫= λ b, [slanted_line q points m b])))
    by (intros m s; apply (for_push 0 q (λ b, [slanted_line q points m b]))).
  rewrite (for_push 0 q (λ m, seqZ 0 (q - 0) ≫= λ b, [slanted_line q points m b])).
  rewrite Z.sub_0_r. simpl. by rewrite <-app_assoc.
Qed.

(** The deck has [q² + q + 1] lines whatever the order. *)
Lemma len_generate_lines q points :
  0 ≤ q → len (generate_lines q points) = q * q + q + 1.
Proof.
  intros Hq. rewrite generate_lines_eq. unfold len.
  rewrite !length_app, !bind_singletons, length_fmap.
  rewrite (length_bind_const _ (Z.to_nat q)), length_seqZ
    by (intros m; by rewrite bind_singletons, length_fmap, length_seqZ).
  simpl. nia.
Qed.

(** ** The builder: the self-check *)

Lemma bind_out {A B} (f : A → JS B) (a : A) (out : list entry) :
  (Normal a, out) ≫= f = ((f a).1, out ++ (f a).2).
Proof. unfold mbind, JS_bind, bind. by destruct (f a). Qed.

(** The self-check never throws: it ends normally, having printed its
    diagnostics as errors. *)
Lemma self_check_run q n plane :
  self_check q n plane = (Normal tt, ConsoleError <$> build_diagnostics q n plane).
Proof.
  unfold self_check, forM.
  (* the loop over the pairs *)
  rewrite (for_each_print _ _
    (λ i, ConsoleError <$> (seqZ (i + 1) (len plane - (i + 1)) ≫= λ j,
            build_pair_diag i j (card plane i) (card plane j)))).
  2:{ intros i [Hi1 Hi2]%elem_of_seqZ.
      rewrite (for_each_print _ _
        (λ j, ConsoleError <$> build_pair_diag i j (card plane i) (card plane j))).
      - f_equal. by rewrite fmap_bind.
      - intros j [Hj1 Hj2]%elem_of_seqZ.
        rewrite (elem_in_range plane i) by lia. rewrite bind_normal.
        rewrite filterM_includes by lia. rewrite bind_normal.
        unfold build_pair_diag. by case_bool_decide. }
  (* the loop over the lines *)
  rewrite (for_each_print _ _
    (λ i, ConsoleError <$> build_line_diag q i (card plane i))).
  2:{ intros i [Hi1 Hi2]%elem_of_seqZ.
      rewrite elem_in_range by lia. rewrite bind_normal.
      unfold build_line_diag. by case_bool_decide. }
  unfold build_diagnostics. rewrite !fmap_app, !fmap_bind, Z.sub_0_r.
  unfold build_count_diag.
  case_bool_decide; unfold console_error; rewrite !bind_out; simpl;
    by rewrite ?app_nil_r.
Qed.

Lemma constructProjectivePlane_run q :
  let plane := generate_lines q (generate_points q) in
  constructProjectivePlane q =
    (Normal plane,
     (ConsoleError <$> build_diagnostics q (q * q + q + 1) plane) ++
     [ConsoleLogPlane "Generated plane:" plane]).
Proof.
  intros plane. unfold constructProjectivePlane. fold plane.
  rewrite self_check_run. unfold console_log_plane. rewrite !bind_out. done.
Qed.

(** ** Decks checked by evaluation *)

Section all_pairs.
Context {A : Type} (R : A → A → Prop) `{∀ x y, Decision (R x y)}.

Lemma all_pairs_lookup l (i j : nat) x y :
  all_pairs R l → (i < j)%nat → l !! i = Some x → l !! j = Some y → R x y.
Proof.
  revert i j. induction l as [|a l IH]; intros i j Hl Hij Hi Hj; [done|].
  destruct Hl as [Ha Hl]. destruct j as [|j]; [lia|]. simpl in Hj.
  destruct i as [|i]; simpl in Hi.
  - injection Hi as ->. rewrite Forall_forall in Ha.
    by eapply Ha, list_elem_of_lookup_2.
  - eapply (IH i j); [done|lia|done..].
Qed.
End all_pairs.

Lemma pairs_share_exactly_one (plane : list (list Z)) :
  all_pairs (λ ci cj, length (common ci cj) = 1%nat) plane →
  ∀ (i j : nat) ci cj, i ≠ j →
    plane !! i = Some ci → plane !! j = Some cj → share_exactly_one ci cj.
Proof.
  intros Hall i j ci cj Hij Hi Hj.
  destruct (decide (i < j)%nat).
  - apply common_one_share. unfold len.
    by rewrite (all_pairs_lookup _ plane i j ci cj Hall).
  - apply share_exactly_one_sym, common_one_share. unfold len.
    by rewrite (all_pairs_lookup _ plane j i cj ci Hall) by (done || lia).
Qed.


Lemma elem_of_concat {A} (l : list (list A)) (s : A) :
  s ∈ concat l ↔ ∃ c, c ∈ l ∧ s ∈ c.
Proof.
  induction l as [|c l IH]; simpl.
  - split; [by intros ?%elem_of_nil|]. by intros (c & ?%elem_of_nil & _).
  - rewrite elem_of_app, IH. split.
    + intros [Hs|(c' & Hc' & Hs)]; [exists c|exists c']; split; try done.
      * left.
      * by right.
    + intros (c' & [->|Hc']%elem_of_cons & Hs); [by left|right; eauto].
Qed.

Lemma same_members (l k : list Z) :
  Forall (λ s, s ∈ k) l → Forall (λ s, s ∈ l) k → ∀ s, s ∈ l ↔ s ∈ k.
Proof. rewrite !Forall_forall. naive_solver. Qed.

(** ** The linear search and the closed form *)

Lemma generate_points_of_nat (q : Z) :
  0 ≤ q → generate_points q = generate_points (Z.of_nat (Z.to_nat q)).
Proof. intros. by rewrite Z2Nat.id. Qed.

Lemma findIndex_affine (q x y : Z) :
  0 ≤ x < q → 0 ≤ y < q →
  findIndex (at_coords (Num x) (Num y)) (generate_points q) = x * q + y.
Proof.
  intros Hx Hy.
  rewrite (findIndex_lookup _ _ _ (Z.to_nat x * Z.to_nat q + Z.to_nat y)%nat).
  - lia.
  - apply NoDup_generate_points.
  - rewrite generate_points_of_nat by lia.
    rewrite lookup_affine_point by lia. by rewrite !Z2Nat.id by lia.
Qed.

Lemma findIndex_slope (q x : Z) :
  0 ≤ x < q →
  findIndex (at_coords (Num x) Inf) (generate_points q) = q * q + x.
Proof.
  intros Hx.
  rewrite (findIndex_lookup _ _ _ (Z.to_nat q * Z.to_nat q + Z.to_nat x)%nat).
  - lia.
  - apply NoDup_generate_points.
  - rewrite generate_points_of_nat by lia.
    rewrite lookup_slope_point by lia. by rewrite !Z2Nat.id by lia.
Qed.

Lemma findIndex_infinity (q : Z) :
  0 ≤ q → findIndex (at_coords Inf Inf) (generate_points q) = q * q + q.
Proof.
  intros Hq.
  rewrite (findIndex_lookup _ _ _ (Z.to_nat q * Z.to_nat q + Z.to_nat q)%nat).
  - lia.
  - apply NoDup_generate_points.
  - rewrite generate_points_of_nat by lia. apply lookup_infinity_point.
Qed.

(** The field operations stay inside [0, q) and compute [(m·x + b) mod q]. *)
Lemma add_multiply_mod (q m x b : Z) :
  0 < q → 0 ≤ m → 0 ≤ x → 0 ≤ b →
  add q (multiply q m x) b = (m * x + b) `mod` q.
Proof.
  intros Hq Hm Hx Hb. unfold add, multiply.
  rewrite (Z.rem_mod_nonneg (m * x) q) by nia.
  pose proof (Z.mod_pos_bound (m * x) q Hq).
  rewrite Z.rem_mod_nonneg by lia.
  by rewrite Zplus_mod_idemp_l.
Qed.

Lemma bind_ext_in {X B} (f g : X → list B) (l : list X) :
  (∀ x, x ∈ l → f x = g x) → l ≫= f = l ≫= g.
Proof.
  induction l as [|x l IH]; intros Hfg; [done|].
  rewrite !bind_cons, (Hfg x) by left. f_equal.
  apply IH. intros; apply Hfg; by right.
Qed.

Lemma fmap_ext_in {X B} (f g : X → B) (l : list X) :
  (∀ x, x ∈ l → f x = g x) → f <$> l = g <$> l.
Proof.
  intros Hfg. rewrite <-!bind_singletons. apply bind_ext_in.
  intros x Hx. by rewrite Hfg.
Qed.

Lemma generate_lines_closed_form (q : Z) :
  0 < q → generate_lines q (generate_points q) = closed_form_lines q.
Proof.
  intros Hq. rewrite generate_lines_eq. unfold closed_form_lines.
  f_equal; [|f_equal].
  - apply bind_ext_in. intros m Hm%elem_of_seqZ.
    apply bind_ext_in. intros b Hb%elem_of_seqZ.
    unfold slanted_line. rewrite line_loop, findIndex_slope by lia.
    do 2 f_equal. apply fmap_ext_in. intros x Hx%elem_of_seqZ.
    rewrite add_multiply_mod by lia.
    pose proof (Z.mod_pos_bound (m * x + b) q Hq).
    by rewrite findIndex_affine by lia.
  - apply bind_ext_in. intros k Hk%elem_of_seqZ.
    unfold vertical_line. rewrite line_loop, findIndex_infinity by lia.
    do 2 f_equal. apply fmap_ext_in. intros y Hy%elem_of_seqZ.
    by rewrite findIndex_affine by lia.
  - unfold infinity_line. rewrite line_loop, findIndex_infinity by lia.
    do 2 f_equal. apply fmap_ext_in. intros x Hx%elem_of_seqZ.
    by rewrite findIndex_slope by lia.
Qed.

(** ** Relabelling the symbols *)

Section relabel.
Context {A B : Type} `{EqDecision A} `{EqDecision B} (f : A → B).
Implicit Types (plane : list (list A)) (c ci cj l : list A).

Lemma inj_on_subseteq l k : l ⊆ k → inj_on f k → inj_on f l.
Proof. intros Hlk Hk a b Ha Hb. apply Hk; by apply Hlk. Qed.

Lemma elem_of_fmap_inj_on l x :
  inj_on f (x :: l) → f x ∈ f <$> l ↔ x ∈ l.
Proof.
  intros Hf. split; [|apply list_elem_of_fmap_2].
  intros (y & Hxy & Hy)%list_elem_of_fmap.
  rewrite (Hf x y); [done|left|by right|done].
Qed.

Lemma common_fmap ci cj :
  inj_on f (ci ++ cj) → common (f <$> ci) (f <$> cj) = f <$> common ci cj.
Proof.
  unfold common, includes. induction ci as [|x ci IH]; intros Hf; [done|].
  rewrite fmap_cons, !filter_cons, IH.
  2:{ eapply inj_on_subseteq; [|done]. set_solver. }
  assert (f x ∈ f <$> cj ↔ x ∈ cj) as Hx.
  { apply elem_of_fmap_inj_on. eapply inj_on_subseteq; [|done]. set_solver. }
  destruct (decide (bool_decide (f x ∈ f <$> cj) = true)) as [Hd|Hd];
    rewrite bool_decide_eq_true, Hx in Hd.
  - by rewrite decide_True by (by apply bool_decide_eq_true).
  - by rewrite decide_False by (by rewrite bool_decide_eq_true).
Qed.

Lemma remove_dups_fmap_length l :
  inj_on f l → length (remove_dups (f <$> l)) = length (remove_dups l).
Proof.
  induction l as [|x l IH]; intros Hf; [done|].
  rewrite fmap_cons. simpl.
  pose proof (elem_of_fmap_inj_on l x Hf) as Hx.
  assert (inj_on f l) as Hl by (eapply inj_on_subseteq; [|done]; set_solver).
  destruct (decide_rel (∈) (f x) (f <$> l)), (decide_rel (∈) x l);
    simpl; rewrite ?IH by done; naive_solver.
Qed.

Lemma card_fmap plane (i : Z) :
  card (relabel f plane) i = f <$> card plane i.
Proof.
  unfold relabel, card, js_get. case_bool_decide; [done|].
  rewrite list_lookup_fmap. by destruct (plane !! Z.to_nat i).
Qed.

Lemma card_subseteq plane (i : Z) : card plane i ⊆ concat plane.
Proof.
  unfold card, js_get. case_bool_decide; [set_solver|].
  destruct (plane !! Z.to_nat i) as [c|] eqn:Hc; [|set_solver].
  intros s Hs. apply elem_of_concat. exists c. split; [|done].
  by eapply list_elem_of_lookup_2.
Qed.

Lemma concat_fmap plane : concat (relabel f plane) = f <$> concat plane.
Proof.
  unfold relabel. induction plane as [|c plane IH]; [done|].
  rewrite fmap_cons. simpl. by rewrite IH, fmap_app.
Qed.

(** The verifier only compares symbols: a relabelling that tells the
    symbols of the deck apart changes none of its diagnostics. *)
Lemma diagnostics_relabel plane :
  inj_on f (concat plane) → diagnostics (relabel f plane) = diagnostics plane.
Proof.
  intros Hf. unfold diagnostics.
  assert (len (relabel f plane) = len plane) as Hlen
    by (unfold relabel, len; by rewrite length_fmap).
  rewrite Hlen.
  f_equal; [|f_equal].
  - unfold count_diag. by rewrite Hlen.
  - apply bind_ext_in. intros i _. rewrite card_fmap. f_equal.
    + unfold card_diag, len. by rewrite length_fmap.
    + apply bind_ext_in. intros j _. rewrite card_fmap.
      unfold pair_diag. rewrite common_fmap.
      * unfold len. by rewrite length_fmap.
      * eapply inj_on_subseteq; [|done].
        pose proof (card_subseteq plane i). pose proof (card_subseteq plane j).
        set_solver.
  - unfold union_diag, distinct_symbols, len.
    by rewrite concat_fmap, remove_dups_fmap_length.
Qed.

Lemma verify_relabel plane :
  inj_on f (concat plane) →
  verifyProjectivePlane (relabel f plane) = verifyProjectivePlane plane.
Proof. intros Hf. by rewrite !verify_run, diagnostics_relabel. Qed.

End relabel.

(** ** Valid decks *)

Section valid.
Context {A : Type} `{EqDecision A}.
Implicit Types (plane : list (list A)) (c ci cj : list A) (s t : A).

(** When the pair check passes, the symbol sets of any two cards meet in
    exactly one symbol. *)
Lemma pairs_ok_sound plane :
  pairs_ok plane →
  ∀ (i j : nat) ci cj, i ≠ j →
    plane !! i = Some ci → plane !! j = Some cj → share_exactly_one ci cj.
Proof.
  intros Hp i j ci cj Hij Hi Hj. destruct (decide (i < j)%nat).
  - apply common_one_share. by eapply Hp.
  - apply share_exactly_one_sym, common_one_share.
    eapply (Hp j i); [lia|done..].
Qed.

(** On cards without a repeated symbol the pair check of the verifier is
    the size of the intersection of the symbol sets. *)
Lemma pairs_ok_share plane :
  (∀ c, c ∈ plane → NoDup c) →
  pairs_ok plane ↔
  ∀ (i j : nat) ci cj, i ≠ j →
    plane !! i = Some ci → plane !! j = Some cj → share_exactly_one ci cj.
Proof.
  intros Hnd. split.
  - intros Hp i j ci cj Hij Hi Hj. destruct (decide (i < j)%nat).
    + apply common_one_share. by eapply Hp.
    + apply share_exactly_one_sym, common_one_share.
      eapply (Hp j i); [lia|done..].
  - intros Hs i j ci cj Hij Hi Hj. apply share_common_one.
    + by eapply Hnd, list_elem_of_lookup_2.
    + eapply (Hs i j); [lia|done..].
Qed.

Lemma valid_deck_checks plane :
  (∀ c, c ∈ plane → NoDup c) →
  valid_deck 7 plane ↔
  count_ok plane ∧ sizes_ok plane ∧ pairs_ok plane ∧ union_ok plane.
Proof.
  intros Hnd. unfold valid_deck, count_ok, sizes_ok, union_ok.
  rewrite (pairs_ok_share plane Hnd). split.
  - intros (Hc & Hs & Hp & Hu). split_and!; [done| |done..].
    intros i c Hi. by eapply Hs, list_elem_of_lookup_2.
  - intros (Hc & Hs & Hp & Hu). split_and!; [done| |done..].
    intros c Hc'. split; [|by apply Hnd].
    apply list_elem_of_lookup_1 in Hc' as [i Hi]. by eapply Hs.
Qed.

Lemma valid_deck_passes plane : valid_deck 7 plane → diagnostics plane = [].
Proof.
  intros Hv. apply diagnostics_nil, valid_deck_checks; [|done].
  intros c Hc. by apply Hv.
Qed.

(** *** Spoiling a deck *)

(** Two cards that share a symbol no longer share exactly one after a
    symbol of the first, absent from the second, is put on the second. *)
Lemma spoiled_pair ci cj s :
  s ∈ ci → s ∉ cj → share_exactly_one ci cj →
  ¬ share_exactly_one ci (cj ++ [s]).
Proof.
  intros Hi Hj (s0 & H0i & H0j & _) (t & _ & _ & Ht).
  assert (s0 = t) as -> by (apply Ht; [done|apply elem_of_app; by left]).
  assert (s = t) as ->
    by (apply Ht; [done|apply elem_of_app; right; left]).
  done.
Qed.

Lemma spoiled_deck_diagnosed plane (i j : nat) ci cj s :
  pairs_ok plane → i ≠ j →
  plane !! i = Some ci → plane !! j = Some cj → s ∈ ci → s ∉ cj →
  ∃ k, k ≠ 1 ∧
    msg_pair (Z.of_nat (i `min` j)) (Z.of_nat (i `max` j)) k
      ∈ diagnostics (<[j := cj ++ [s]]> plane).
Proof.
  intros Hp Hij Hi Hj Hsi Hsj.
  assert (j < length plane)%nat as Hjl by (by eapply lookup_lt_Some).
  pose proof (list_lookup_insert_eq plane j (cj ++ [s]) Hjl) as Hj'.
  pose proof (list_lookup_insert_ne plane j i (cj ++ [s]) (not_eq_sym Hij)) as Hi'.
  rewrite Hi in Hi'.
  destruct (decide (i < j)%nat) as [Hlt|Hge].
  - rewrite Nat.min_l, Nat.max_r by lia.
    exists (len (common ci (cj ++ [s]))).
    assert (len (common ci (cj ++ [s])) ≠ 1) as Hk.
    { intros Hk%common_one_share. eapply spoiled_pair; [..|exact Hk]; try done.
      apply common_one_share. by eapply Hp. }
    split; [done|]. by apply diag_pair_in.
  - rewrite Nat.min_r, Nat.max_l by lia.
    exists (len (common (cj ++ [s]) ci)).
    assert (len (common (cj ++ [s]) ci) ≠ 1) as Hk.
    { intros Hk%common_one_share%share_exactly_one_sym.
      eapply spoiled_pair; [..|exact Hk]; try done.
      apply share_exactly_one_sym, common_one_share.
      eapply (Hp j i); [lia|done..]. }
    split; [done|]. apply diag_pair_in; [lia|done..].
Qed.

End valid.

Lemma reference_deck_valid : valid_deck 7 reference_deck.
Proof.
  unfold valid_deck. split_and!.
  - by apply len_generate_lines.
  - apply Forall_forall. unfold len. by_evaluation.
  - apply pairs_share_exactly_one. by_evaluation.
  - unfold distinct_symbols, len. by_evaluation.
Qed.

(** ** The glyphs *)

(** The glyphs of the 57 point indices are pairwise different, [undefined]
    being the glyph of 56 only. *)
Lemma symbol_at_inj_on_reference_deck : inj_on symbol_at (concat reference_deck).
Proof.
  assert (∀ a, a ∈ concat reference_deck → a ∈ seqZ 0 57) as Hrange.
  { apply Forall_forall. by_evaluation. }
  assert (NoDup (symbol_at <$> seqZ 0 57)) as Hnd by (by_evaluation).
  intros a b Ha%Hrange Hb%Hrange Hab.
  apply list_elem_of_lookup_1 in Ha as [ia Hia].
  apply list_elem_of_lookup_1 in Hb as [ib Hib].
  assert (ia = ib) as ->; [|congruence].
  eapply (NoDup_lookup _ ia ib (symbol_at a)); [done|..].
  - by rewrite list_lookup_fmap, Hia.
  - by rewrite list_lookup_fmap, Hib, Hab.
Qed.

(** ** The builder: every point, once *)

Lemma elem_of_generate_points (q : Z) (p : point) :
  p ∈ generate_points q ↔
    (∃ x y, p = (Num x, Num y) ∧ 0 ≤ x < q ∧ 0 ≤ y < q) ∨
    (∃ x, p = (Num x, Inf) ∧ 0 ≤ x < q) ∨
    p = (Inf, Inf).
Proof.
  rewrite generate_points_eq, !elem_of_app, elem_of_affine_points,
    elem_of_slope_points, list_elem_of_singleton. done.
Qed.

Lemma len_generate_points (q : Z) :
  0 ≤ q → len (generate_points q) = q * q + q + 1.
Proof.
  intros Hq. rewrite generate_points_eq. unfold len.
  rewrite !length_app, length_affine_points, length_slope_points. simpl. nia.
Qed.

Lemma findIndex_from_none {A} (p : A → bool) (l : list A) (i : Z) :
  0 ≤ i → findIndex_from p l i = -1 ↔ ∀ x, x ∈ l → p x = false.
Proof.
  revert i. induction l as [|x l IH]; intros i Hi; simpl.
  - split; [|done]. intros _ x Hx. by apply elem_of_nil in Hx.
  - destruct (p x) eqn:Hpx.
    + split; [lia|]. intros Hall. rewrite Hall in Hpx by left. done.
    + rewrite IH by lia. split.
      * intros Hall y [->|Hy]%elem_of_cons; [done|by apply Hall].
      * intros Hall y Hy. apply Hall. by right.
Qed.

(** ** The lines, by name *)

Lemma closed_form_lines_ids (q : Z) :
  closed_form_lines q = line_of q <$> line_ids q.
Proof.
  unfold closed_form_lines, line_ids.
  rewrite !fmap_app, !fmap_bind. f_equal.
  apply bind_ext_in. intros m _. by rewrite fmap_bind.
Qed.

Lemma generate_lines_line_ids (q : Z) :
  0 ≤ q → generate_lines q (generate_points q) = line_of q <$> line_ids q.
Proof.
  intros Hq. rewrite <-closed_form_lines_ids.
  destruct (decide (q = 0)) as [->|]; [by vm_compute|].
  apply generate_lines_closed_form. lia.
Qed.

Lemma elem_of_line_ids (q : Z) (d : line_id) : d ∈ line_ids q ↔ in_plane q d.
Proof.
  unfold line_ids. rewrite !elem_of_app, !list_elem_of_bind.
  setoid_rewrite list_elem_of_bind. setoid_rewrite list_elem_of_singleton.
  setoid_rewrite elem_of_seqZ.
  destruct d as [m b|k|]; simpl; split.
  - intros [(m' & (b' & [= -> ->] & ?) & ?)|[(k' & [=] & _)|[=]]]. lia.
  - intros [? ?]. left. exists m. split; [|lia]. exists b. split; [done|lia].
  - intros [(m' & (b' & [=] & ?) & ?)|[(k' & [= ->] & ?)|[=]]]. lia.
  - intros ?. right. left. exists k. split; [done|lia].
  - done.
  - intros _. by right; right.
Qed.

Lemma NoDup_line_ids (q : Z) : NoDup (line_ids q).
Proof.
  unfold line_ids. apply NoDup_app. split_and!.
  - apply NoDup_bind; [| |apply NoDup_seqZ].
    + intros m1 m2 d _ _
        (b1 & ->%list_elem_of_singleton & _)%list_elem_of_bind
        (b2 & [= <- _]%list_elem_of_singleton & _)%list_elem_of_bind.
      done.
    + intros m _. rewrite bind_singletons.
      apply NoDup_fmap_2_strong; [|apply NoDup_seqZ].
      by intros b1 b2 _ _ [= ->].
  - intros d (m & (b & ->%list_elem_of_singleton & _)%list_elem_of_bind & _)%list_elem_of_bind
      [(k & [=]%list_elem_of_singleton & _)%list_elem_of_bind
      |[=]%list_elem_of_singleton]%elem_of_app.
  - apply NoDup_app. split_and!.
    + rewrite bind_singletons.
      apply NoDup_fmap_2_strong; [|apply NoDup_seqZ].
      by intros k1 k2 _ _ [= ->].
    + intros d (k & ->%list_elem_of_singleton & _)%list_elem_of_bind
        [=]%list_elem_of_singleton.
    + apply NoDup_singleton.
Qed.

(** *** What a line carries *)

Lemma elem_of_slanted (q m b s : Z) :
  s ∈ line_of q (Slanted m b) ↔
    (∃ x, 0 ≤ x < q ∧ s = x * q + (m * x + b) `mod` q) ∨ s = q * q + m.
Proof.
  simpl. rewrite elem_of_app, list_elem_of_fmap, list_elem_of_singleton.
  setoid_rewrite elem_of_seqZ. split.
  - intros [(x & -> & ?)| ->]; [left; exists x; split; [lia|done]|by right].
  - intros [(x & ? & ->)| ->]; [left; exists x; split; [done|lia]|by right].
Qed.

Lemma elem_of_vertical (q k s : Z) :
  s ∈ line_of q (Vertical k) ↔
    (∃ y, 0 ≤ y < q ∧ s = k * q + y) ∨ s = q * q + q.
Proof.
  simpl. rewrite elem_of_app, list_elem_of_fmap, list_elem_of_singleton.
  setoid_rewrite elem_of_seqZ. split.
  - intros [(x & -> & ?)| ->]; [left; exists x; split; [lia|done]|by right].
  - intros [(x & ? & ->)| ->]; [left; exists x; split; [done|lia]|by right].
Qed.

Lemma elem_of_infinity (q s : Z) :
  s ∈ line_of q Infinity ↔
    (∃ x, 0 ≤ x < q ∧ s = q * q + x) ∨ s = q * q + q.
Proof.
  simpl. rewrite elem_of_app, list_elem_of_fmap, list_elem_of_singleton.
  setoid_rewrite elem_of_seqZ. split.
  - intros [(x & -> & ?)| ->]; [left; exists x; split; [lia|done]|by right].
  - intros [(x & ? & ->)| ->]; [left; exists x; split; [done|lia]|by right].
Qed.

Lemma len_line_of (q : Z) (d : line_id) : 0 ≤ q → len (line_of q d) = q + 1.
Proof.
  intros Hq. unfold len.
  destruct d; simpl; rewrite length_app, length_fmap, length_seqZ; simpl; lia.
Qed.

Lemma line_of_in_range (q : Z) (d : line_id) (s : Z) :
  in_plane q d → s ∈ line_of q d → 0 ≤ s ≤ q * q + q.
Proof.
  destruct d as [m b|k|]; simpl in_plane; intros Hd.
  - intros [(x & Hx & ->)| ->]%elem_of_slanted; [|nia].
    pose proof (Z.mod_pos_bound (m * x + b) q ltac:(lia)). nia.
  - intros [(y & Hy & ->)| ->]%elem_of_vertical; nia.
  - intros [(x & Hx & ->)| ->]%elem_of_infinity; nia.
Qed.

Lemma NoDup_line_of (q : Z) (d : line_id) : in_plane q d → NoDup (line_of q d).
Proof.
  destruct d as [m b|k|]; simpl in_plane; intros Hd; simpl;
    apply NoDup_app; (split_and!; [| |apply NoDup_singleton]).
  - apply NoDup_fmap_2_strong; [|apply NoDup_seqZ].
    intros x x' Hx%elem_of_seqZ Hx'%elem_of_seqZ Heq.
    pose proof (Z.mod_pos_bound (m * x + b) q ltac:(lia)).
    pose proof (Z.mod_pos_bound (m * x' + b) q ltac:(lia)). nia.
  - intros s (x & -> & Hx%elem_of_seqZ)%list_elem_of_fmap
      Heq%list_elem_of_singleton.
    pose proof (Z.mod_pos_bound (m * x + b) q ltac:(lia)). nia.
  - apply NoDup_fmap_2_strong; [|apply NoDup_seqZ].
    intros y y' _ _ Heq. lia.
  - intros s (y & -> & Hy%elem_of_seqZ)%list_elem_of_fmap
      Heq%list_elem_of_singleton. nia.
  - apply NoDup_fmap_2_strong; [|apply NoDup_seqZ].
    intros x x' _ _ Heq. lia.
  - intros s (x & -> & Hx%elem_of_seqZ)%list_elem_of_fmap
      Heq%list_elem_of_singleton. nia.
Qed.

Lemma elem_of_deck (q : Z) (c : list Z) :
  0 ≤ q →
  c ∈ generate_lines q (generate_points q) ↔ ∃ d, in_plane q d ∧ c = line_of q d.
Proof.
  intros Hq. rewrite generate_lines_line_ids, list_elem_of_fmap by done.
  setoid_rewrite elem_of_line_ids. naive_solver.
Qed.

Lemma remove_dups_length_range (l : list Z) (n : Z) :
  (∀ s, s ∈ l ↔ 0 ≤ s < n) → len (remove_dups l) = Z.max 0 n.
Proof.
  intros Hl. unfold len.
  rewrite (Permutation_length (l' := seqZ 0 n)), length_seqZ; [lia|].
  apply NoDup_Permutation; [apply NoDup_remove_dups|apply NoDup_seqZ|].
  intros s. rewrite elem_of_remove_dups, Hl, elem_of_seqZ. lia.
Qed.

Lemma deck_symbols (q s : Z) :
  0 ≤ q →
  (∃ c, c ∈ generate_lines q (generate_points q) ∧ s ∈ c) ↔ 0 ≤ s ≤ q * q + q.
Proof.
  intros Hq. split.
  - intros (c & (d & Hd & ->)%elem_of_deck & Hs); [|done].
    by eapply line_of_in_range.
  - intros Hs. destruct (decide (s < q * q)) as [Hlt|Hge].
    + exists (line_of q (Vertical (s `div` q))).
      assert (0 < q) as Hq' by nia.
      pose proof (Z.mod_pos_bound s q Hq').
      pose proof (Z.div_mod s q ltac:(lia)).
      assert (0 ≤ s `div` q < q) by (split; [apply Z.div_pos; lia|apply Z.div_lt_upper_bound; lia]).
      split.
      * apply elem_of_deck; [done|]. by exists (Vertical (s `div` q)).
      * apply elem_of_vertical. left. exists (s `mod` q). split; lia.
    + exists (line_of q Infinity). split.
      * apply elem_of_deck; [done|]. by exists Infinity.
      * apply elem_of_infinity.
        destruct (decide (s = q * q + q)); [by right|].
        left. exists (s - q * q). lia.
Qed.

Lemma deck_distinct_symbols (q : Z) :
  0 ≤ q →
  distinct_symbols (generate_lines q (generate_points q)) = q * q + q + 1.
Proof.
  intros Hq. unfold distinct_symbols.
  rewrite (remove_dups_length_range _ (q * q + q + 1)); [nia|].
  intros s. rewrite elem_of_concat, deck_symbols by done. lia.
Qed.

(** ** Two lines of a plane of prime order *)

Lemma mod_eq_divide (q a b : Z) :
  0 < q → a `mod` q = b `mod` q ↔ (q | a - b).
Proof. intros Hq. rewrite Z.cong_iff_0, Z.mod_divide by lia. done. Qed.

Lemma small_multiple (q a : Z) : (q | a) → - q < a < q → a = 0.
Proof.
  intros [k ->] Hk. assert (0 < q) by lia.
  assert (k = 0) as -> by nia. lia.
Qed.

Lemma affine_index_inj (q x y x' y' : Z) :
  0 ≤ y < q → 0 ≤ y' < q → x * q + y = x' * q + y' → x = x' ∧ y = y'.
Proof. intros Hy Hy' Heq. assert (x = x') as -> by nia. lia. Qed.

(** Two slanted lines of different slopes meet over exactly one [x]. *)
Lemma meet_unique (q m1 m2 b1 b2 x x' : Z) :
  Z.prime q → 0 ≤ m1 < q → 0 ≤ m2 < q → m1 ≠ m2 →
  0 ≤ x < q → 0 ≤ x' < q →
  (m1 * x + b1) `mod` q = (m2 * x + b2) `mod` q →
  (m1 * x' + b1) `mod` q = (m2 * x' + b2) `mod` q →
  x = x'.
Proof.
  intros Hp Hm1 Hm2 Hm Hx Hx' H1 H2.
  pose proof (Z.prime_ge_2 q Hp) as Hq.
  apply mod_eq_divide in H1; [|lia]. apply mod_eq_divide in H2; [|lia].
  assert (q | (m1 - m2) * (x - x')) as Hd.
  { replace ((m1 - m2) * (x - x'))
      with ((m1 * x + b1 - (m2 * x + b2)) - (m1 * x' + b1 - (m2 * x' + b2)))
      by ring.
    by apply Z.divide_sub_r. }
  apply Z.divide_prime_mul in Hd as [Hd|Hd]; [| |done].
  - apply small_multiple in Hd; lia.
  - apply small_multiple in Hd; lia.
Qed.

Lemma meet_exists (q m1 m2 b1 b2 : Z) :
  Z.prime q → 0 ≤ m1 < q → 0 ≤ m2 < q → m1 ≠ m2 →
  ∃ x, 0 ≤ x < q ∧ (m1 * x + b1) `mod` q = (m2 * x + b2) `mod` q.
Proof.
  intros Hp Hm1 Hm2 Hm.
  pose proof (Z.prime_ge_2 q Hp) as Hq.
  assert (¬ (q | m1 - m2)) as Hnd.
  { intros Hd. apply small_multiple in Hd; lia. }
  destruct (Z.Bezout_coprime _ _ (Z.coprime_prime_l q (m1 - m2) Hp Hnd))
    as (u & v & Huv).
  exists ((v * (b2 - b1)) `mod` q). split; [apply Z.mod_pos_bound; lia|].
  apply mod_eq_divide; [lia|].
  pose proof (Z.div_mod (v * (b2 - b1)) q ltac:(lia)) as Hdm.
  exists (- u * (b2 - b1) - (m1 - m2) * ((v * (b2 - b1)) `div` q)).
  set (D := (v * (b2 - b1)) `div` q) in *.
  assert ((v * (b2 - b1)) `mod` q = v * (b2 - b1) - q * D) as -> by lia.
  assert (v * (m1 - m2) = 1 - u * q) as Hv by lia.
  replace (m1 * (v * (b2 - b1) - q * D) + b1 - (m2 * (v * (b2 - b1) - q * D) + b2))
    with (v * (m1 - m2) * (b2 - b1) - (m1 - m2) * q * D - (b2 - b1)) by ring.
  rewrite Hv. ring.
Qed.

Lemma affine_index_bound (q x y : Z) :
  0 ≤ x < q → 0 ≤ y < q → 0 ≤ x * q + y < q * q.
Proof. intros Hx Hy. nia. Qed.

Lemma slanted_index_bound (q m b x : Z) :
  0 ≤ x < q → 0 ≤ x * q + (m * x + b) `mod` q < q * q.
Proof.
  intros Hx. apply affine_index_bound; [done|]. apply Z.mod_pos_bound. lia.
Qed.

Lemma slanted_meet_slanted (q m1 b1 m2 b2 : Z) :
  Z.prime q → in_plane q (Slanted m1 b1) → in_plane q (Slanted m2 b2) →
  Slanted m1 b1 ≠ Slanted m2 b2 →
  share_exactly_one (line_of q (Slanted m1 b1)) (line_of q (Slanted m2 b2)).
Proof.
  intros Hp [Hm1 Hb1] [Hm2 Hb2] Hne.
  pose proof (Z.prime_ge_2 q Hp) as Hq.
  destruct (decide (m1 = m2)) as [->|Hm].
  - assert (b1 ≠ b2) as Hb by congruence.
    exists (q * q + m2). split_and!; [apply elem_of_slanted; by right..|].
    intros t [(x & Hx & ->)| ->]%elem_of_slanted; [|done].
    intros [(x' & Hx' & Heq)| Heq]%elem_of_slanted.
    + apply affine_index_inj in Heq as [-> Heq];
        [|apply Z.mod_pos_bound; lia..].
      apply mod_eq_divide in Heq; [|lia].
      apply small_multiple in Heq; lia.
    + pose proof (slanted_index_bound q m2 b1 x Hx). lia.
  - destruct (meet_exists q m1 m2 b1 b2 Hp Hm1 Hm2 Hm) as (x0 & Hx0 & Heq0).
    exists (x0 * q + (m1 * x0 + b1) `mod` q). split_and!.
    + apply elem_of_slanted. left. by exists x0.
    + apply elem_of_slanted. left. exists x0. by rewrite Heq0.
    + intros t [(x & Hx & ->)| ->]%elem_of_slanted.
      * intros [(x' & Hx' & Heq)| Heq]%elem_of_slanted.
        -- apply affine_index_inj in Heq as [-> Heq];
             [|apply Z.mod_pos_bound; lia..].
           by rewrite (meet_unique q m1 m2 b1 b2 x' x0).
        -- pose proof (slanted_index_bound q m1 b1 x Hx). lia.
      * intros [(x' & Hx' & Heq)| Heq]%elem_of_slanted.
        -- pose proof (slanted_index_bound q m2 b2 x' Hx'). lia.
        -- lia.
Qed.

Lemma slanted_meet_vertical (q m b k : Z) :
  0 < q → in_plane q (Slanted m b) → in_plane q (Vertical k) →
  share_exactly_one (line_of q (Slanted m b)) (line_of q (Vertical k)).
Proof.
  intros Hq [Hm Hb] Hk. simpl in Hk.
  pose proof (Z.mod_pos_bound (m * k + b) q Hq) as Hr.
  exists (k * q + (m * k + b) `mod` q). split_and!.
  - apply elem_of_slanted. left. by exists k.
  - apply elem_of_vertical. left. by eexists.
  - intros t [(x & Hx & ->)| ->]%elem_of_slanted.
    + intros [(y & Hy & Heq)| Heq]%elem_of_vertical.
      * apply affine_index_inj in Heq as [-> Heq];
          [done|by apply Z.mod_pos_bound|done].
      * pose proof (slanted_index_bound q m b x Hx). lia.
    + intros [(y & Hy & Heq)| Heq]%elem_of_vertical.
      * pose proof (affine_index_bound q k y Hk Hy). lia.
      * lia.
Qed.

Lemma slanted_meet_infinity (q m b : Z) :
  0 < q → in_plane q (Slanted m b) →
  share_exactly_one (line_of q (Slanted m b)) (line_of q Infinity).
Proof.
  intros Hq [Hm Hb].
  exists (q * q + m). split_and!.
  - apply elem_of_slanted. by right.
  - apply elem_of_infinity. left. by exists m.
  - intros t [(x & Hx & ->)| ->]%elem_of_slanted; [|done].
    pose proof (slanted_index_bound q m b x Hx).
    intros [(y & Hy & Heq)| Heq]%elem_of_infinity; lia.
Qed.

Lemma vertical_meet_vertical (q k1 k2 : Z) :
  0 < q → in_plane q (Vertical k1) → in_plane q (Vertical k2) → k1 ≠ k2 →
  share_exactly_one (line_of q (Vertical k1)) (line_of q (Vertical k2)).
Proof.
  intros Hq Hk1 Hk2 Hne. simpl in Hk1, Hk2.
  exists (q * q + q). split_and!; [apply elem_of_vertical; by right..|].
  intros t [(y & Hy & ->)| ->]%elem_of_vertical; [|done].
  intros [(y' & Hy' & Heq)| Heq]%elem_of_vertical.
  - apply affine_index_inj in Heq as [? _]; done.
  - pose proof (affine_index_bound q k1 y Hk1 Hy). lia.
Qed.

Lemma vertical_meet_infinity (q k : Z) :
  0 < q → in_plane q (Vertical k) →
  share_exactly_one (line_of q (Vertical k)) (line_of q Infinity).
Proof.
  intros Hq Hk. simpl in Hk.
  exists (q * q + q). split_and!.
  - apply elem_of_vertical. by right.
  - apply elem_of_infinity. by right.
  - intros t [(y & Hy & ->)| ->]%elem_of_vertical; [|done].
    pose proof (affine_index_bound q k y Hk Hy).
    intros [(x & Hx & Heq)| Heq]%elem_of_infinity; lia.
Qed.

(** Any two lines of a plane of prime order meet in exactly one point. *)
Lemma lines_meet_once (q : Z) (d1 d2 : line_id) :
  Z.prime q → in_plane q d1 → in_plane q d2 → d1 ≠ d2 →
  share_exactly_one (line_of q d1) (line_of q d2).
Proof.
  intros Hp H1 H2 Hne. pose proof (Z.prime_ge_2 q Hp) as Hq.
  destruct d1 as [m1 b1|k1|], d2 as [m2 b2|k2|].
  - by apply slanted_meet_slanted.
  - apply slanted_meet_vertical; (done || lia).
  - apply slanted_meet_infinity; (done || lia).
  - apply share_exactly_one_sym, slanted_meet_vertical; (done || lia).
  - apply vertical_meet_vertical; (done || lia || congruence).
  - apply vertical_meet_infinity; (done || lia).
  - apply share_exactly_one_sym, slanted_meet_infinity; (done || lia).
  - apply share_exactly_one_sym, vertical_meet_infinity; (done || lia).
  - done.
Qed.

Lemma deck_lookup (q : Z) (i : nat) (c : list Z) :
  0 ≤ q →
  generate_lines q (generate_points q) !! i = Some c ↔
  ∃ d, line_ids q !! i = Some d ∧ c = line_of q d.
Proof.
  intros Hq. rewrite generate_lines_line_ids, list_lookup_fmap by done.
  rewrite fmap_Some. naive_solver.
Qed.

Lemma prime_deck_pairs (q : Z) (i j : nat) (ci cj : list Z) :
  Z.prime q → i ≠ j →
  generate_lines q (generate_points q) !! i = Some ci →
  generate_lines q (generate_points q) !! j = Some cj →
  share_exactly_one ci cj.
Proof.
  intros Hp Hij Hi Hj. pose proof (Z.prime_ge_2 q Hp) as Hq.
  apply deck_lookup in Hi as (di & Hi & ->); [|lia].
  apply deck_lookup in Hj as (dj & Hj & ->); [|lia].
  apply lines_meet_once; [done|..].
  - by eapply elem_of_line_ids, list_elem_of_lookup_2.
  - by eapply elem_of_line_ids, list_elem_of_lookup_2.
  - intros ->. apply Hij. eapply NoDup_lookup; [apply NoDup_line_ids|done..].
Qed.

(** ** The self-check, stated on the deck *)

Lemma build_diagnostics_nil (q n : Z) (plane : list (list Z)) :
  build_diagnostics q n plane = [] ↔
  len plane = n ∧
  (∀ (i : nat) c, plane !! i = Some c → len c = q + 1) ∧
  pairs_ok plane.
Proof.
  unfold build_diagnostics, pairs_ok.
  rewrite !app_nil, !bind_nil_iff. setoid_rewrite bind_nil_iff.
  unfold build_count_diag, build_line_diag, build_pair_diag.
  rewrite if_ne_nil. setoid_rewrite if_ne_nil.
  split.
  - intros (Hc & Hl & Hp). split_and!; [done| |].
    + intros i c Hic.
      assert (i < length plane)%nat by (by eapply lookup_lt_Some).
      rewrite <-(card_lookup _ _ _ Hic).
      apply Hl, elem_of_seqZ. unfold len. lia.
    + intros i j ci cj Hij Hi Hj.
      assert (j < length plane)%nat by (by eapply lookup_lt_Some).
      rewrite <-(card_lookup _ _ _ Hi), <-(card_lookup _ _ _ Hj).
      apply Hp; apply elem_of_seqZ; unfold len; lia.
  - intros (Hc & Hl & Hp). split_and!; [done| |].
    + intros i [Hi1 Hi2]%elem_of_seqZ.
      eapply Hl, (lookup_card plane i). lia.
    + intros i [Hi1 Hi2]%elem_of_seqZ j [Hj1 Hj2]%elem_of_seqZ.
      eapply (Hp (Z.to_nat i) (Z.to_nat j)); [lia|by apply lookup_card; lia..].
Qed.

Lemma build_pair_in (q n : Z) (plane : list (list Z)) (i j : nat) ci cj :
  (i < j)%nat → plane !! i = Some ci → plane !! j = Some cj →
  len (common ci cj) ≠ 1 →
  build_pair_msg (Z.of_nat i) (Z.of_nat j) (len (common ci cj))
    ∈ build_diagnostics q n plane.
Proof.
  intros Hij Hi Hj Hn. unfold build_diagnostics. rewrite !elem_of_app.
  right. right.
  assert (j < length plane)%nat by (by eapply lookup_lt_Some).
  apply list_elem_of_bind. exists (Z.of_nat i). split.
  - apply list_elem_of_bind. exists (Z.of_nat j). split.
    + rewrite (card_lookup _ _ _ Hi), (card_lookup _ _ _ Hj).
      unfold build_pair_diag. by apply if_ne_elem.
    + apply elem_of_seqZ. unfold len. lia.
  - apply elem_of_seqZ. unfold len. lia.
Qed.

Lemma build_diagnostics_elem (q n : Z) (plane : list (list Z)) (d : string) :
  len plane = n →
  (∀ (i : nat) c, plane !! i = Some c → len c = q + 1) →
  d ∈ build_diagnostics q n plane →
  ∃ (i j : nat) ci cj,
    (i < j)%nat ∧ plane !! i = Some ci ∧ plane !! j = Some cj ∧
    len (common ci cj) ≠ 1 ∧
    d = build_pair_msg (Z.of_nat i) (Z.of_nat j) (len (common ci cj)).
Proof.
  intros Hn Hl. unfold build_diagnostics. rewrite !elem_of_app.
  intros [Hd|[Hd|Hd]].
  - unfold build_count_diag in Hd. rewrite bool_decide_eq_false_2 in Hd by tauto.
    by apply elem_of_nil in Hd.
  - apply list_elem_of_bind in Hd as (i & Hd & [Hi1 Hi2]%elem_of_seqZ).
    unfold build_line_diag in Hd.
    rewrite bool_decide_eq_false_2 in Hd; [by apply elem_of_nil in Hd|].
    intros Hne. apply Hne. eapply Hl, (lookup_card plane i). lia.
  - apply list_elem_of_bind in Hd as (i & Hd & [Hi1 Hi2]%elem_of_seqZ).
    apply list_elem_of_bind in Hd as (j & Hd & [Hj1 Hj2]%elem_of_seqZ).
    unfold build_pair_diag in Hd. case_bool_decide as Hne; [|by apply elem_of_nil in Hd].
    apply list_elem_of_singleton in Hd.
    exists (Z.to_nat i), (Z.to_nat j), (card plane i), (card plane j).
    rewrite !Z2Nat.id by lia. split_and!; [lia| | |done..].
    + apply lookup_card. lia.
    + apply lookup_card. lia.
Qed.

(** Every card of a built deck has [q + 1] symbols, none repeated. *)
Lemma deck_card_shape (q : Z) (i : nat) (c : list Z) :
  0 ≤ q →
  generate_lines q (generate_points q) !! i = Some c → len c = q + 1 ∧ NoDup c.
Proof.
  intros Hq Hi.
  apply list_elem_of_lookup_2, elem_of_deck in Hi as (d & Hd & ->); [|done].
  split; [by apply len_line_of|by apply NoDup_line_of].
Qed.

Lemma prime_deck_valid (q : Z) :
  Z.prime q → valid_deck q (generate_lines q (generate_points q)).
Proof.
  intros Hp. pose proof (Z.prime_ge_2 q Hp) as Hq. unfold valid_deck. split_and!.
  - apply len_generate_lines. lia.
  - intros c (d & Hd & ->)%elem_of_deck; [|lia].
    split; [apply len_line_of; lia|by apply NoDup_line_of].
  - intros i j ci cj. by apply prime_deck_pairs.
  - apply deck_distinct_symbols. lia.
Qed.

Lemma valid_deck_build_silent (q : Z) (plane : list (list Z)) :
  valid_deck q plane → build_diagnostics q (q * q + q + 1) plane = [].
Proof.
  intros (Hc & Hs & Hp & _). apply build_diagnostics_nil. split_and!; [done| |].
  - intros i c Hi. by eapply Hs, list_elem_of_lookup_2.
  - apply pairs_ok_share; [|done]. intros c Hin. by apply Hs.
Qed.

(** On a built deck the self-check is silent only when the deck is valid. *)
Lemma deck_build_silent_valid (q : Z) :
  0 ≤ q →
  build_diagnostics q (q * q + q + 1) (generate_lines q (generate_points q)) = [] →
  valid_deck q (generate_lines q (generate_points q)).
Proof.
  intros Hq (Hc & Hl & Hp)%build_diagnostics_nil. split_and!.
  - done.
  - intros c [i Hi]%list_elem_of_lookup_1. by eapply deck_card_shape.
  - by apply pairs_ok_sound.
  - by apply deck_distinct_symbols.
Qed.

(** ** Composite orders *)

Lemma lookup_slanted_id (n i j : nat) :
  (i < n)%nat → (j < n)%nat →
  line_ids (Z.of_nat n) !! (i * n + j)%nat
  = Some (Slanted (Z.of_nat i) (Z.of_nat j)).
Proof.
  intros Hi Hj. unfold line_ids.
  assert (∀ m, length (seqZ 0 (Z.of_nat n) ≫= λ b, [Slanted m b]) = n) as Hlen.
  { intros m. by rewrite bind_singletons, length_fmap, length_seqZ, Nat2Z.id. }
  rewrite lookup_app_l.
  2:{ rewrite (length_bind_const _ n), length_seqZ by done. nia. }
  rewrite (lookup_bind_const _ n) by done.
  rewrite lookup_seqZ_lt by lia. simpl.
  rewrite bind_singletons, list_lookup_fmap, lookup_seqZ_lt by lia. done.
Qed.

Lemma two_members {A} (l : list A) (x y : A) :
  x ∈ l → y ∈ l → x ≠ y → 2 ≤ len l.
Proof.
  unfold len. intros Hx Hy Hne. destruct l as [|a [|b l]]; simpl.
  - by apply elem_of_nil in Hx.
  - apply list_elem_of_singleton in Hx, Hy. congruence.
  - lia.
Qed.

(** In the deck of order [a·b] the cards of the lines [y = 0] and
    [y = a·x], at positions [0] and [a·q], both carry the points [(0, 0)]
    and [(b, 0)]. *)
Lemma composite_meet (q a b : Z) :
  2 ≤ a → 2 ≤ b → q = a * b →
  ∃ c0 c1,
    generate_lines q (generate_points q) !! 0%nat = Some c0 ∧
    generate_lines q (generate_points q) !! Z.to_nat (a * q) = Some c1 ∧
    (0 ∈ c0 ∧ 0 ∈ c1) ∧ (b * q ∈ c0 ∧ b * q ∈ c1) ∧ 0 ≠ b * q.
Proof.
  intros Ha Hb Hq.
  assert (2 ≤ q) as Hq2 by nia. assert (a < q) as Haq by nia.
  assert (b < q) as Hbq by nia.
  exists (line_of q (Slanted 0 0)), (line_of q (Slanted a 0)). split_and!.
  - apply deck_lookup; [lia|]. eexists. split; [|done].
    pose proof (lookup_slanted_id (Z.to_nat q) 0 0 ltac:(lia) ltac:(lia)) as H.
    cbn [Nat.mul Nat.add] in H. by rewrite Z2Nat.id in H by lia.
  - apply deck_lookup; [lia|]. eexists. split; [|done].
    pose proof (lookup_slanted_id (Z.to_nat q) (Z.to_nat a) 0
                  ltac:(lia) ltac:(lia)) as H.
    rewrite !Z2Nat.id in H by lia.
    replace (Z.to_nat (a * q)) with (Z.to_nat a * Z.to_nat q + 0)%nat
      by (rewrite Z2Nat.inj_mul by lia; lia).
    done.
  - apply elem_of_slanted. left. exists 0. split; [lia|].
    replace (0 * 0 + 0) with 0 by lia. rewrite Z.mod_0_l by lia. lia.
  - apply elem_of_slanted. left. exists 0. split; [lia|].
    replace (a * 0 + 0) with 0 by lia. rewrite Z.mod_0_l by lia. lia.
  - apply elem_of_slanted. left. exists b. split; [lia|].
    replace (0 * b + 0) with 0 by lia. rewrite Z.mod_0_l by lia. lia.
  - apply elem_of_slanted. left. exists b. split; [lia|].
    replace (a * b + 0) with q by lia. rewrite Z.mod_same by lia. lia.
  - nia.
Qed.

Lemma composite_deck_invalid (q a b : Z) :
  2 ≤ a → 2 ≤ b → q = a * b →
  ¬ valid_deck q (generate_lines q (generate_points q)).
Proof.
  intros Ha Hb Hq (_ & _ & Hp & _).
  destruct (composite_meet q a b Ha Hb Hq)
    as (c0 & c1 & H0 & H1 & [H00 H01] & [Hb0 Hb1] & Hne).
  destruct (Hp 0%nat (Z.to_nat (a * q)) c0 c1) as (s & _ & _ & Hs);
    [nia|done..|].
  apply Hne. transitivity s; [apply Hs|symmetry; apply Hs]; done.
Qed.

(** ** Orders below 1 *)

Lemma nonpositive_order_deck (q : Z) :
  q ≤ 0 → generate_lines q (generate_points q) = [[0]].
Proof.
  intros Hq. rewrite generate_lines_eq, generate_points_eq.
  unfold affine_points, slope_points, infinity_line, for_.
  rewrite Z.sub_0_r, !seqZ_nil by lia. done.
Qed.

(** ** The builder and the verifier together *)

Lemma len_deck (q : Z) :
  len (generate_lines q (generate_points q)) = 57 ↔ q = 7.
Proof.
  destruct (decide (0 ≤ q)) as [Hq|Hq].
  - rewrite len_generate_lines by done. nia.
  - rewrite nonpositive_order_deck by lia. unfold len. simpl. lia.
Qed.

(** ** The verifier and the order of symbols and cards *)

Section verifier_order.
Context {A : Type} `{EqDecision A}.
Implicit Types (plane : list (list A)) (c ci cj : list A).

Lemma common_Permutation ci cj ci' cj' :
  ci ≡ₚ ci' → cj ≡ₚ cj' → len (common ci cj) = len (common ci' cj').
Proof.
  intros Hi Hj. unfold len, common. f_equal.
  rewrite (list_filter_iff _ (λ x, includes cj' x = true)).
  - apply Permutation_length. by rewrite Hi.
  - intros x. unfold includes. rewrite !bool_decide_eq_true. by rewrite Hj.
Qed.

Lemma remove_dups_Permutation_length (l l' : list A) :
  l ≡ₚ l' → length (remove_dups l) = length (remove_dups l').
Proof.
  intros Hl. apply Permutation_length, NoDup_Permutation;
    [apply NoDup_remove_dups..|].
  intros x. by rewrite !elem_of_remove_dups, Hl.
Qed.

Lemma concat_Forall2_Permutation plane plane' :
  Forall2 (≡ₚ) plane plane' → concat plane ≡ₚ concat plane'.
Proof. induction 1 as [|c c' ? ? Hc _ IH]; simpl; [done|]. by rewrite Hc, IH. Qed.

Lemma concat_Permutation plane plane' :
  plane ≡ₚ plane' → concat plane ≡ₚ concat plane'.
Proof.
  induction 1 as [|c ? ? _ IH|c c' ?|? ? ? _ IH1 _ IH2]; simpl.
  - done.
  - by rewrite IH.
  - rewrite !app_assoc. f_equiv. apply Permutation_app_comm.
  - by rewrite IH1.
Qed.

Lemma card_Forall2_Permutation plane plane' (i : Z) :
  Forall2 (≡ₚ) plane plane' → card plane i ≡ₚ card plane' i.
Proof.
  intros Hp. unfold card, js_get. case_bool_decide; [done|].
  destruct (plane !! Z.to_nat i) as [c|] eqn:Hc.
  - destruct (Forall2_lookup_l _ _ _ _ _ Hp Hc) as (c' & -> & Hcc). done.
  - apply lookup_ge_None in Hc. rewrite (Forall2_length _ _ _ Hp) in Hc.
    apply lookup_ge_None in Hc. by rewrite Hc.
Qed.

Lemma diagnostics_reordered_symbols plane plane' :
  Forall2 (≡ₚ) plane plane' → diagnostics plane' = diagnostics plane.
Proof.
  intros Hp. unfold diagnostics.
  assert (len plane' = len plane) as Hlen
    by (unfold len; by rewrite (Forall2_length _ _ _ Hp)).
  rewrite Hlen. f_equal; [|f_equal].
  - unfold count_diag. by rewrite Hlen.
  - apply bind_ext_in. intros i _.
    pose proof (card_Forall2_Permutation _ _ i Hp) as Hi. f_equal.
    + unfold card_diag, len. by rewrite (Permutation_length Hi).
    + apply bind_ext_in. intros j _.
      pose proof (card_Forall2_Permutation _ _ j Hp) as Hj.
      unfold pair_diag. by rewrite (common_Permutation _ _ _ _ Hi Hj).
  - unfold union_diag, distinct_symbols, len.
    by rewrite (remove_dups_Permutation_length _ _
                  (concat_Forall2_Permutation _ _ Hp)).
Qed.

Lemma valid_deck_Permutation (q : Z) plane plane' :
  plane ≡ₚ plane' → valid_deck q plane → valid_deck q plane'.
Proof.
  intros Hp (Hc & Hs & Hpairs & Hu). unfold valid_deck. split_and!.
  - unfold len in *. by rewrite <-(Permutation_length Hp).
  - intros c Hin. apply Hs. by rewrite Hp.
  - symmetry in Hp. apply Permutation_inj in Hp as (_ & f & Hf & Hlook).
    intros i j ci cj Hij Hi Hj. rewrite Hlook in Hi, Hj.
    eapply (Hpairs (f i) (f j)); [|done..]. intros Heq. by apply Hij, Hf.
  - unfold distinct_symbols, len in *.
    by rewrite <-(remove_dups_Permutation_length _ _ (concat_Permutation _ _ Hp)).
Qed.

End verifier_order.

(** ** How many cards carry a symbol *)

Lemma length_filter_fmap {X Y} (P : Y → Prop) `{∀ y, Decision (P y)}
    (f : X → Y) (l : list X) :
  length (filter P (f <$> l)) = length (filter (λ x, P (f x)) l).
Proof.
  induction l as [|x l IH]; [done|].
  rewrite fmap_cons, !filter_cons. destruct (decide (P (f x))); simpl; by rewrite IH.
Qed.

Lemma length_filter_members {X} (P : X → Prop) `{∀ x, Decision (P x)}
    (l k : list X) :
  NoDup l → NoDup k → (∀ x, x ∈ l ∧ P x ↔ x ∈ k) →
  length (filter P l) = length k.
Proof.
  intros Hl Hk Hiff. apply Permutation_length, NoDup_Permutation;
    [by apply NoDup_filter|done|].
  intros x. rewrite list_elem_of_filter, <-Hiff. naive_solver.
Qed.

(** The one [b] for which the line [y = m·x + b] goes through [(x, y)]. *)
Lemma slanted_through (q m b x y : Z) :
  0 < q → 0 ≤ b < q → 0 ≤ y < q →
  (m * x + b) `mod` q = y ↔ b = (y - m * x) `mod` q.
Proof.
  intros Hq Hb Hy.
  rewrite <-(Z.mod_small y q) at 1 by done.
  rewrite <-(Z.mod_small b q) at 2 by done.
  rewrite !mod_eq_divide by done.
  replace (b - (y - m * x)) with (m * x + b - y) by ring. done.
Qed.

Lemma lines_through_affine (q x y : Z) (d : line_id) :
  0 ≤ x < q → 0 ≤ y < q →
  d ∈ line_ids q ∧ x * q + y ∈ line_of q d ↔
  d ∈ ((λ m, Slanted m ((y - m * x) `mod` q)) <$> seqZ 0 q) ++ [Vertical x].
Proof.
  intros Hx Hy. assert (0 < q) as Hq by lia.
  pose proof (affine_index_bound q x y Hx Hy) as Hs.
  rewrite elem_of_line_ids, elem_of_app, list_elem_of_fmap,
    list_elem_of_singleton.
  setoid_rewrite elem_of_seqZ.
  destruct d as [m b|k|]; simpl in_plane.
  - rewrite elem_of_slanted. split.
    + intros [[Hm Hb] [(x' & Hx' & Heq)|Heq]]; [|lia].
      apply affine_index_inj in Heq as [<- Heq];
        [|done|by apply Z.mod_pos_bound].
      left. exists m. split; [|lia]. f_equal.
      by apply slanted_through.
    + intros [(m' & [= -> ->] & Hm)|[=]].
      pose proof (Z.mod_pos_bound (y - m' * x) q Hq) as Hb.
      split; [lia|]. left. exists x. split; [done|]. f_equal.
      symmetry. by apply slanted_through.
  - rewrite elem_of_vertical. split.
    + intros [Hk [(y' & Hy' & Heq)|Heq]]; [|lia].
      apply affine_index_inj in Heq as [<- _]; [by right|done..].
    + intros [(m' & [=] & _)|[= ->]]. split; [done|]. left. by exists y.
  - rewrite elem_of_infinity. split.
    + intros [_ [(x' & Hx' & Heq)|Heq]]; lia.
    + intros [(m' & [=] & _)|[=]].
Qed.

Lemma lines_through_slope (q m : Z) (d : line_id) :
  0 ≤ m < q →
  d ∈ line_ids q ∧ q * q + m ∈ line_of q d ↔
  d ∈ (Slanted m <$> seqZ 0 q) ++ [Infinity].
Proof.
  intros Hm.
  rewrite elem_of_line_ids, elem_of_app, list_elem_of_fmap,
    list_elem_of_singleton.
  setoid_rewrite elem_of_seqZ.
  destruct d as [m' b|k|]; simpl in_plane.
  - rewrite elem_of_slanted. split.
    + intros [[Hm' Hb] [(x' & Hx' & Heq)|Heq]].
      * pose proof (slanted_index_bound q m' b x' Hx'). lia.
      * left. exists b. split; [f_equal|]; lia.
    + intros [(b' & [= -> ->] & Hb)|[=]]. split; [lia|]. by right.
  - rewrite elem_of_vertical. split.
    + intros [Hk [(y' & Hy' & Heq)|Heq]]; [|lia].
      pose proof (affine_index_bound q k y' Hk Hy'). lia.
    + intros [(b' & [=] & _)|[=]].
  - rewrite elem_of_infinity. split; [by right|].
    intros _. split; [done|]. left. by exists m.
Qed.

Lemma lines_through_infinity (q : Z) (d : line_id) :
  0 ≤ q →
  d ∈ line_ids q ∧ q * q + q ∈ line_of q d ↔
  d ∈ (Vertical <$> seqZ 0 q) ++ [Infinity].
Proof.
  intros Hq.
  rewrite elem_of_line_ids, elem_of_app, list_elem_of_fmap,
    list_elem_of_singleton.
  setoid_rewrite elem_of_seqZ.
  destruct d as [m' b|k|]; simpl in_plane.
  - rewrite elem_of_slanted. split.
    + intros [[Hm' Hb] [(x' & Hx' & Heq)|Heq]]; [|lia].
      pose proof (slanted_index_bound q m' b x' Hx'). lia.
    + intros [(b' & [=] & _)|[=]].
  - rewrite elem_of_vertical. split.
    + intros [Hk _]. left. exists k. split; [done|lia].
    + intros [(k' & [= ->] & Hk)|[=]]. split; [lia|]. by right.
  - rewrite elem_of_infinity. split; [by right|].
    intros _. split; [done|]. by right.
Qed.

Lemma NoDup_snoc_fmap {X} (f : Z → X) (x : X) (q : Z) :
  (∀ a b, f a = f b → a = b) → (∀ a, f a ≠ x) →
  NoDup ((f <$> seqZ 0 q) ++ [x]).
Proof.
  intros Hf Hx. apply NoDup_app. split_and!.
  - apply NoDup_fmap_2_strong; [|apply NoDup_seqZ]. intros a b _ _. apply Hf.
  - intros y (a & -> & _)%list_elem_of_fmap ?%list_elem_of_singleton.
    by eapply Hx.
  - apply NoDup_singleton.
Qed.

Lemma cards_through (q s : Z) :
  0 ≤ q → 0 ≤ s ≤ q * q + q →
  len (filter (λ c, s ∈ c) (generate_lines q (generate_points q))) = q + 1.
Proof.
  intros Hq Hs. unfold len.
  rewrite generate_lines_line_ids, length_filter_fmap by done.
  lazymatch goal with
  | |- Z.of_nat ?n = _ =>
      assert (∀ k, NoDup k →
                (∀ d, d ∈ line_ids q ∧ s ∈ line_of q d ↔ d ∈ k) →
                n = length k) as Hcount
  end.
  { intros k Hk Hiff.
    apply length_filter_members; [apply NoDup_line_ids|done..]. }
  destruct (decide (s < q * q)) as [Hlt|Hge].
  - assert (0 < q) as Hq' by nia.
    pose proof (Z.mod_pos_bound s q Hq') as Hy.
    pose proof (Z.div_mod s q ltac:(lia)) as Hdm.
    assert (0 ≤ s `div` q < q) as Hx
      by (split; [apply Z.div_pos; lia|apply Z.div_lt_upper_bound; lia]).
    rewrite (Hcount (((λ m, Slanted m ((s `mod` q - m * (s `div` q)) `mod` q))
                        <$> seqZ 0 q) ++ [Vertical (s `div` q)])).
    + rewrite length_app, length_fmap, length_seqZ. simpl. lia.
    + apply NoDup_snoc_fmap; [by intros a b [= ->]|done].
    + intros d. rewrite <-(lines_through_affine q _ _ d Hx Hy).
      by replace (s `div` q * q + s `mod` q) with s by lia.
  - destruct (decide (s = q * q + q)) as [->|Hne].
    + rewrite (Hcount ((Vertical <$> seqZ 0 q) ++ [Infinity])).
      * rewrite length_app, length_fmap, length_seqZ. simpl. lia.
      * apply NoDup_snoc_fmap; [by intros a b [= ->]|done].
      * intros d. by apply lines_through_infinity.
    + rewrite (Hcount ((Slanted (s - q * q) <$> seqZ 0 q) ++ [Infinity])).
      * rewrite length_app, length_fmap, length_seqZ. simpl. lia.
      * apply NoDup_snoc_fmap; [by intros a b [= ->]|done].
      * intros d. rewrite <-(lines_through_slope q (s - q * q) d) by lia.
        by replace (q * q + (s - q * q)) with s by lia.
Qed.

(** ** The button *)

Lemma handleVerify_eq (cards : list (list glyph)) (r : option string) :
  handleVerify (AppState cards r) =
    verifyProjectivePlane cards ≫= λ result : bool,
      mret (AppState cards
              (Some (if result then "Verification passed!"
                     else "Verification failed."))).
Proof. reflexivity. Qed.

(** * The claims *)

(** C1. For every order [q] among 2, 3, 5 and 7, any two distinct cards of
    the deck that [constructProjectivePlane q] returns have exactly one
    symbol index in common: the intersection of their sets of indices has
    size exactly 1. *)
Theorem distinct_cards_share_exactly_one (q : Z) :
  q ∈ test_orders →
  ∃ plane out,
    constructProjectivePlane q = (Normal plane, out) ∧
    ∀ (i j : nat) ci cj, i ≠ j →
      plane !! i = Some ci → plane !! j = Some cj → share_exactly_one ci cj.
Proof.
  intros Hq. eexists _, _. split; [apply constructProjectivePlane_run|].
  apply pairs_share_exactly_one.
  each_test_order Hq; by_evaluation.
Qed.

Lemma distinct_cards_share_exactly_one_witness :
  2 ∈ test_orders ∧
  ∃ plane out,
    constructProjectivePlane 2 = (Normal plane, out) ∧
    ∀ (i j : nat) ci cj, i ≠ j →
      plane !! i = Some ci → plane !! j = Some cj → share_exactly_one ci cj.
Proof.
  split; [by_evaluation|].
  apply (distinct_cards_share_exactly_one 2). by_evaluation.
Defined.

(** C2. For every order [q] among 2, 3, 5 and 7, [constructProjectivePlane q]
    returns exactly [q² + q + 1] cards, and each card is a sequence of
    exactly [q + 1] point indices (numbers of [0 .. q² + q]), no two of them
    equal. *)
Theorem deck_has_right_shape (q : Z) :
  q ∈ test_orders →
  ∃ plane out,
    constructProjectivePlane q = (Normal plane, out) ∧
    len plane = q * q + q + 1 ∧
    ∀ c, c ∈ plane →
      len c = q + 1 ∧ NoDup c ∧ Forall (λ s, 0 ≤ s ≤ q * q + q) c.
Proof.
  intros Hq. eexists _, _. split; [apply constructProjectivePlane_run|].
  split.
  - apply len_generate_lines. each_test_order Hq; lia.
  - apply Forall_forall. unfold len.
    each_test_order Hq; by_evaluation.
Qed.

Lemma deck_has_right_shape_witness :
  3 ∈ test_orders ∧
  ∃ plane out,
    constructProjectivePlane 3 = (Normal plane, out) ∧
    len plane = 3 * 3 + 3 + 1 ∧
    ∀ c, c ∈ plane →
      len c = 3 + 1 ∧ NoDup c ∧ Forall (λ s, 0 ≤ s ≤ 3 * 3 + 3) c.
Proof.
  split; [by_evaluation|].
  apply (deck_has_right_shape 3). by_evaluation.
Defined.

(** C3. For every order [q] among 2, 3, 5 and 7, the symbol indices that
    occur on the cards of [constructProjectivePlane q] are [q² + q + 1]
    distinct numbers, and they are exactly the numbers [0 .. q² + q]. *)
Theorem deck_uses_every_index (q : Z) :
  q ∈ test_orders →
  ∃ plane out,
    constructProjectivePlane q = (Normal plane, out) ∧
    distinct_symbols plane = q * q + q + 1 ∧
    ∀ s, (∃ c, c ∈ plane ∧ s ∈ c) ↔ 0 ≤ s ≤ q * q + q.
Proof.
  intros Hq. eexists _, _. split; [apply constructProjectivePlane_run|].
  split.
  - unfold distinct_symbols, len. each_test_order Hq; by_evaluation.
  - intros s.
    transitivity (s ∈ concat (generate_lines q (generate_points q))).
    { by rewrite elem_of_concat. }
    transitivity (s ∈ seqZ 0 (q * q + q + 1)).
    2:{ rewrite elem_of_seqZ. lia. }
    revert s. apply same_members; each_test_order Hq; by_evaluation.
Qed.

Lemma deck_uses_every_index_witness :
  5 ∈ test_orders ∧
  ∃ plane out,
    constructProjectivePlane 5 = (Normal plane, out) ∧
    distinct_symbols plane = 5 * 5 + 5 + 1 ∧
    ∀ s, (∃ c, c ∈ plane ∧ s ∈ c) ↔ 0 ≤ s ≤ 5 * 5 + 5.
Proof.
  split; [by_evaluation|].
  apply (deck_uses_every_index 5). by_evaluation.
Defined.

(** C4. [verifyProjectivePlane] fixes the order 7. On the deck that
    [constructProjectivePlane 7] returns it answers [true], having gathered no
    diagnostic; on the decks of the other tested orders 2, 3 and 5 it answers
    [false], the card count being among its diagnostics. *)
Theorem verifier_accepts_the_order_7_deck_only (q : Z) :
  q ∈ test_orders →
  ∃ plane out,
    constructProjectivePlane q = (Normal plane, out) ∧
    (q = 7 →
       verify_errors plane = (Normal [], []) ∧
       verifyProjectivePlane plane =
         (Normal true, [ConsoleLog "Verification passed successfully!"])) ∧
    (q ≠ 7 →
       ∃ errors,
         verify_errors plane = (Normal errors, []) ∧
         (verifyProjectivePlane plane).1 = Normal false ∧
         msg_count (q * q + q + 1) ∈ errors).
Proof.
  intros Hq. eexists _, _. split; [apply constructProjectivePlane_run|].
  split.
  - intros ->. fold reference_deck.
    rewrite verify_run, verify_errors_eq.
    by rewrite (valid_deck_passes _ reference_deck_valid).
  - intros Hne. eexists. split; [apply verify_errors_eq|].
    rewrite verify_run.
    assert (len (generate_lines q (generate_points q)) = q * q + q + 1) as Hlen
      by (apply len_generate_lines; each_test_order Hq; lia).
    assert (msg_count (q * q + q + 1)
              ∈ diagnostics (generate_lines q (generate_points q))) as Hin.
    { rewrite <-Hlen. apply diag_count_in. rewrite Hlen.
      each_test_order Hq; lia. }
    split; [|done].
    rewrite bool_decide_eq_false_2; [done|].
    intros Hnil. rewrite Hnil in Hin. by apply elem_of_nil in Hin.
Qed.

Lemma verifier_accepts_the_order_7_deck_only_witness :
  7 ∈ test_orders ∧
  ∃ plane out,
    constructProjectivePlane 7 = (Normal plane, out) ∧
    (7 = 7 →
       verify_errors plane = (Normal [], []) ∧
       verifyProjectivePlane plane =
         (Normal true, [ConsoleLog "Verification passed successfully!"])) ∧
    (7 ≠ 7 →
       ∃ errors,
         verify_errors plane = (Normal errors, []) ∧
         (verifyProjectivePlane plane).1 = Normal false ∧
         msg_count (7 * 7 + 7 + 1) ∈ errors).
Proof.
  split; [by_evaluation|].
  apply (verifier_accepts_the_order_7_deck_only 7). by_evaluation.
Defined.

(** Stated of every tested order, C4 fails at the order 2: on that deck the
    verifier answers [false], with nine diagnostics. *)
Lemma order_2_deck_fails_the_verifier :
  2 ∈ test_orders ∧
  constructProjectivePlane 2
    = (Normal fano_deck, [ConsoleLogPlane "Generated plane:" fano_deck]) ∧
  verifyProjectivePlane fano_deck =
    (Normal false,
     [ConsoleError "Verification failed:";
      ConsoleError "Total number of cards is 7 instead of 57";
      ConsoleError "Card 0 has 3 symbols instead of 8";
      ConsoleError "Card 1 has 3 symbols instead of 8";
      ConsoleError "Card 2 has 3 symbols instead of 8";
      ConsoleError "Card 3 has 3 symbols instead of 8";
      ConsoleError "Card 4 has 3 symbols instead of 8";
      ConsoleError "Card 5 has 3 symbols instead of 8";
      ConsoleError "Card 6 has 3 symbols instead of 8";
      ConsoleError "Total number of unique symbols is 7 instead of 57"]) ∧
  ¬ (∀ q, q ∈ test_orders →
       ∃ plane out,
         constructProjectivePlane q = (Normal plane, out) ∧
         (verifyProjectivePlane plane).1 = Normal true).
Proof.
  assert (constructProjectivePlane 2
    = (Normal fano_deck, [ConsoleLogPlane "Generated plane:" fano_deck])) as Hrun
    by (vm_compute; reflexivity).
  split_and!; [by_evaluation|done|vm_compute; reflexivity|].
  intros Hall. destruct (Hall 2) as (plane & out & Hplane & Hpass).
  - by_evaluation.
  - rewrite Hrun in Hplane. injection Hplane as <- _.
    vm_compute in Hpass. discriminate Hpass.
Qed.


(** What the verifier prints on that deck for its first two cards, which
    share the one symbol 0. *)
Example card_of_eight_zeros :
  pair_diag 0 1 [0; 0; 0; 0; 0; 0; 0; 0] [0; 56; 56; 56; 56; 56; 56; 56] =
    ["Cards 0 and 1 share 8 symbols instead of 1"].
Proof. vm_compute. reflexivity. Qed.

(** C6. Take a valid deck of order 7, a symbol [s] that is on card [i] and
    not on another card [j], and put [s] on card [j] as well.  Then
    [verifyProjectivePlane] answers [false], and among its diagnostics is the
    one of the pair of cards [i] and [j], which no longer share one symbol. *)
Theorem duplicated_symbol_is_reported {A} `{EqDecision A}
    (plane : list (list A)) (i j : nat) (ci cj : list A) (s : A) :
  valid_deck 7 plane →
  i ≠ j → plane !! i = Some ci → plane !! j = Some cj → s ∈ ci → s ∉ cj →
  ∃ errors k,
    verify_errors (<[j := cj ++ [s]]> plane) = (Normal errors, []) ∧
    verifyProjectivePlane (<[j := cj ++ [s]]> plane) =
      (Normal false,
       ConsoleError "Verification failed:" :: (ConsoleError <$> errors)) ∧
    k ≠ 1 ∧
    msg_pair (Z.of_nat (i `min` j)) (Z.of_nat (i `max` j)) k ∈ errors.
Proof.
  intros Hv Hij Hi Hj Hsi Hsj.
  assert (pairs_ok plane) as Hp.
  { by apply valid_deck_passes, diagnostics_nil in Hv as (_ & _ & ? & _). }
  destruct (spoiled_deck_diagnosed plane i j ci cj s) as (k & Hk & Hin); try done.
  exists (diagnostics (<[j := cj ++ [s]]> plane)), k. split_and!; [|  |done..].
  - apply verify_errors_eq.
  - rewrite verify_run, bool_decide_eq_false_2; [done|].
    intros Hnil. rewrite Hnil in Hin. by apply elem_of_nil in Hin.
Qed.

Lemma duplicated_symbol_is_reported_witness :
  valid_deck 7 reference_deck ∧
  0%nat ≠ 1%nat ∧
  reference_deck !! 0%nat = Some [0; 7; 14; 21; 28; 35; 42; 49] ∧
  reference_deck !! 1%nat = Some [1; 8; 15; 22; 29; 36; 43; 49] ∧
  0 ∈ [0; 7; 14; 21; 28; 35; 42; 49] ∧
  (0 ∉ [1; 8; 15; 22; 29; 36; 43; 49]) ∧
  ∃ errors k,
    verify_errors (<[1%nat := [1; 8; 15; 22; 29; 36; 43; 49] ++ [0]]> reference_deck)
      = (Normal errors, []) ∧
    verifyProjectivePlane
      (<[1%nat := [1; 8; 15; 22; 29; 36; 43; 49] ++ [0]]> reference_deck) =
      (Normal false,
       ConsoleError "Verification failed:" :: (ConsoleError <$> errors)) ∧
    k ≠ 1 ∧
    msg_pair (Z.of_nat (0 `min` 1)) (Z.of_nat (0 `max` 1)) k ∈ errors.
Proof.
  assert (0%nat ≠ 1%nat) as H01 by lia.
  assert (reference_deck !! 0%nat = Some [0; 7; 14; 21; 28; 35; 42; 49]) as H0
    by (vm_compute; reflexivity).
  assert (reference_deck !! 1%nat = Some [1; 8; 15; 22; 29; 36; 43; 49]) as H1
    by (vm_compute; reflexivity).
  assert (0 ∈ [0; 7; 14; 21; 28; 35; 42; 49]) as Hin by (by_evaluation).
  assert (0 ∉ [1; 8; 15; 22; 29; 36; 43; 49]) as Hout by (by_evaluation).
  split_and!; try done; [apply reference_deck_valid|].
  exact (duplicated_symbol_is_reported reference_deck 0 1 _ _ 0
           reference_deck_valid H01 H0 H1 Hin Hout).
Defined.

(** What the verifier prints on that spoiled deck. *)
Example spoiled_reference_deck :
  verifyProjectivePlane
    (<[1%nat := [1; 8; 15; 22; 29; 36; 43; 49] ++ [0]]> reference_deck) =
    (Normal false,
     [ConsoleError "Verification failed:";
      ConsoleError "Cards 0 and 1 share 2 symbols instead of 1";
      ConsoleError "Card 1 has 9 symbols instead of 8";
      ConsoleError "Cards 1 and 7 share 2 symbols instead of 1";
      ConsoleError "Cards 1 and 14 share 2 symbols instead of 1";
      ConsoleError "Cards 1 and 21 share 2 symbols instead of 1";
      ConsoleError "Cards 1 and 28 share 2 symbols instead of 1";
      ConsoleError "Cards 1 and 35 share 2 symbols instead of 1";
      ConsoleError "Cards 1 and 42 share 2 symbols instead of 1";
      ConsoleError "Cards 1 and 49 share 2 symbols instead of 1"]).
Proof. vm_compute. reflexivity. Qed.

(** C7. For every order [q ≥ 2] the linear search [findIndex] over the
    enumerated points agrees with the closed form: for [x], [y] in [0, q)
    the affine point [(x, y)] has index [x·q + y], the point [(x, inf)] has
    index [q² + x], and [(inf, inf)] has index [q² + q]; hence the deck the
    builder makes by searching is the deck computed with the closed form. *)
Theorem findIndex_agrees_with_closed_form (q : Z) :
  2 ≤ q →
  (∀ x y, 0 ≤ x < q → 0 ≤ y < q →
     findIndex (at_coords (Num x) (Num y)) (generate_points q) = x * q + y) ∧
  (∀ x, 0 ≤ x < q →
     findIndex (at_coords (Num x) Inf) (generate_points q) = q * q + x) ∧
  findIndex (at_coords Inf Inf) (generate_points q) = q * q + q ∧
  generate_lines q (generate_points q) = closed_form_lines q.
Proof.
  intros Hq. split_and!.
  - intros x y. apply findIndex_affine.
  - intros x. apply findIndex_slope.
  - apply findIndex_infinity. lia.
  - apply generate_lines_closed_form. lia.
Qed.

Lemma findIndex_agrees_with_closed_form_witness :
  2 ≤ 4 ∧
  (∀ x y, 0 ≤ x < 4 → 0 ≤ y < 4 →
     findIndex (at_coords (Num x) (Num y)) (generate_points 4) = x * 4 + y) ∧
  (∀ x, 0 ≤ x < 4 →
     findIndex (at_coords (Num x) Inf) (generate_points 4) = 4 * 4 + x) ∧
  findIndex (at_coords Inf Inf) (generate_points 4) = 4 * 4 + 4 ∧
  generate_lines 4 (generate_points 4) = closed_form_lines 4.
Proof.
  split; [lia|]. apply (findIndex_agrees_with_closed_form 4). lia.
Defined.

(** C8. For every integer order [q ≥ 2], prime or not,
    [constructProjectivePlane q] ends normally, never with an exception, and
    returns a deck of [q² + q + 1] cards.  Its self-check only prints: for
    every two cards of the deck that do not share exactly one symbol it
    prints the error of that pair, with the number of symbols they share,
    which is not 1; it prints nothing else, every error being that of such a
    pair; so it prints no error exactly when the deck is valid.  The deck is
    logged and returned after the errors, whatever they are. *)
Theorem constructProjectivePlane_always_returns (q : Z) :
  2 ≤ q →
  ∃ plane diagnostics,
    constructProjectivePlane q =
      (Normal plane,
       (ConsoleError <$> diagnostics) ++ [ConsoleLogPlane "Generated plane:" plane]) ∧
    len plane = q * q + q + 1 ∧
    (∀ (i j : nat) ci cj, (i < j)%nat →
       plane !! i = Some ci → plane !! j = Some cj →
       ¬ share_exactly_one ci cj →
       len (common ci cj) ≠ 1 ∧
       build_pair_msg (Z.of_nat i) (Z.of_nat j) (len (common ci cj)) ∈ diagnostics) ∧
    (∀ d, d ∈ diagnostics →
       ∃ (i j : nat) ci cj,
         (i < j)%nat ∧ plane !! i = Some ci ∧ plane !! j = Some cj ∧
         ¬ share_exactly_one ci cj ∧
         d = build_pair_msg (Z.of_nat i) (Z.of_nat j) (len (common ci cj))) ∧
    (diagnostics = [] ↔ valid_deck q plane).
Proof.
  intros Hq. eexists _, _. split; [apply constructProjectivePlane_run|].
  split_and!.
  - apply len_generate_lines. lia.
  - intros i j ci cj Hij Hi Hj Hns.
    assert (len (common ci cj) ≠ 1) as Hne.
    { intros Hone. by apply Hns, common_one_share. }
    split; [done|]. by apply build_pair_in.
  - intros d Hd.
    apply build_diagnostics_elem in Hd as (i & j & ci & cj & Hij & Hi & Hj & Hne & ->).
    + exists i, j, ci, cj. split_and!; [done..| |done].
      intros Hs. apply Hne, share_common_one; [|done].
      by eapply (deck_card_shape q i); [lia|].
    + apply len_generate_lines. lia.
    + intros i c Hi. by eapply (deck_card_shape q i); [lia|].
  - split; [apply deck_build_silent_valid; lia|apply valid_deck_build_silent].
Qed.

Lemma constructProjectivePlane_always_returns_witness :
  2 ≤ 6 ∧
  ∃ plane diagnostics,
    constructProjectivePlane 6 =
      (Normal plane,
       (ConsoleError <$> diagnostics) ++ [ConsoleLogPlane "Generated plane:" plane]) ∧
    len plane = 6 * 6 + 6 + 1 ∧
    (∀ (i j : nat) ci cj, (i < j)%nat →
       plane !! i = Some ci → plane !! j = Some cj →
       ¬ share_exactly_one ci cj →
       len (common ci cj) ≠ 1 ∧
       build_pair_msg (Z.of_nat i) (Z.of_nat j) (len (common ci cj)) ∈ diagnostics) ∧
    (∀ d, d ∈ diagnostics →
       ∃ (i j : nat) ci cj,
         (i < j)%nat ∧ plane !! i = Some ci ∧ plane !! j = Some cj ∧
         ¬ share_exactly_one ci cj ∧
         d = build_pair_msg (Z.of_nat i) (Z.of_nat j) (len (common ci cj))) ∧
    (diagnostics = [] ↔ valid_deck 6 plane).
Proof.
  split; [lia|]. apply (constructProjectivePlane_always_returns 6). lia.
Defined.

(** With the composite order 4 the self-check does find violations (lines
    meeting in 0 or 2 points); they are printed and the deck of 21 cards is
    returned all the same. *)
Example composite_order_is_diagnosed :
  ∃ plane out,
    constructProjectivePlane 4 = (Normal plane, out) ∧
    len plane = 21 ∧
    ConsoleError "Lines 0 and 8 intersect at 2 points instead of 1" ∈ out ∧
    ConsoleError "Lines 0 and 9 intersect at 0 points instead of 1" ∈ out.
Proof.
  eexists _, _. split; [vm_compute; reflexivity|].
  split_and!; [done|by_evaluation..].
Qed.

(** C9, as the code has it. [SYMBOLS] holds 56 glyphs, all different, one
    fewer than the 57 point indices of the order 7: the index 56, the point
    [(inf, inf)], has no glyph, and the eight cards through that point (the
    seven vertical lines and the line at infinity) carry [undefined]. *)
Lemma SYMBOLS_lacks_a_glyph :
  len SYMBOLS = 56 ∧
  NoDup SYMBOLS ∧
  symbol_at 56 = Undefined ∧
  ∃ symbols out,
    generateCardSymbols = (Normal symbols, out) ∧
    symbols !! 56%nat =
      Some [Str "☬"; Str "☭"; Str "☮"; Str "☯"; Str "☰"; Str "☱"; Str "☲"; Undefined] ∧
    length (filter (λ c, Undefined ∈ c) symbols) = 8%nat.
Proof.
  split_and!; [done|by_evaluation|done|].
  eexists _, _. split; [vm_compute; reflexivity|].
  split; [done|]. vm_compute. reflexivity.
Qed.

(** C10. The verification that the application runs when it starts passes.
    [generateCardSymbols] returns the deck of order 7 with every index
    replaced by its glyph, index 56 by [undefined]; on it
    [verifyProjectivePlane] answers [true], and the application shows
    ["Verification passed!"].  The reason: the map from index to glyph tells
    apart the 57 indices in use, and the verifier gives the same answer on a
    deck and on any relabelling of it that tells its symbols apart. *)
Theorem startup_verification_passes :
  ∃ symbols out,
    generateCardSymbols = (Normal symbols, out) ∧
    symbols = relabel symbol_at reference_deck ∧
    Undefined ∈ concat symbols ∧
    verifyProjectivePlane symbols =
      (Normal true, [ConsoleLog "Verification passed successfully!"]) ∧
    App_startup.1 = Normal (AppState symbols (Some "Verification passed!")) ∧
    (∀ a b, 0 ≤ a ≤ 56 → 0 ≤ b ≤ 56 → symbol_at a = symbol_at b → a = b) ∧
    (∀ (plane : list (list Z)) (f : Z → glyph),
       inj_on f (concat plane) →
       verifyProjectivePlane (relabel f plane) = verifyProjectivePlane plane).
Proof.
  assert (verifyProjectivePlane (relabel symbol_at reference_deck) =
            (Normal true, [ConsoleLog "Verification passed successfully!"])) as Hpass.
  { rewrite verify_relabel by apply symbol_at_inj_on_reference_deck.
    by rewrite verify_run, (valid_deck_passes _ reference_deck_valid). }
  assert (generateCardSymbols =
            (Normal (relabel symbol_at reference_deck),
             [ConsoleLogPlane "Generated plane:" reference_deck])) as Hgen.
  { vm_compute. reflexivity. }
  eexists _, _. split; [exact Hgen|]. split_and!.
  - done.
  - by_evaluation.
  - done.
  - unfold App_startup. rewrite Hgen, bind_out, Hpass. done.
  - intros a b Ha Hb. apply symbol_at_inj_on_reference_deck.
    + assert (∀ a, a ∈ seqZ 0 57 → a ∈ concat reference_deck) as Hall.
      { apply Forall_forall. by_evaluation. }
      apply Hall, elem_of_seqZ. lia.
    + assert (∀ a, a ∈ seqZ 0 57 → a ∈ concat reference_deck) as Hall.
      { apply Forall_forall. by_evaluation. }
      apply Hall, elem_of_seqZ. lia.
  - intros plane f. apply verify_relabel.
Qed.

(** * Further properties of the code *)

(** ** The points *)

(** X1. For every order [q ≥ 0] the builder enumerates [q² + q + 1] points,
    none twice: the affine points [(x, y)], the points [(x, inf)] and
    [(inf, inf)], with [x] and [y] in [0, q). *)
Theorem points_are_enumerated_once (q : Z) :
  0 ≤ q →
  len (generate_points q) = q * q + q + 1 ∧
  NoDup (generate_points q) ∧
  ∀ p, p ∈ generate_points q ↔
    (∃ x y, p = (Num x, Num y) ∧ 0 ≤ x < q ∧ 0 ≤ y < q) ∨
    (∃ x, p = (Num x, Inf) ∧ 0 ≤ x < q) ∨
    p = (Inf, Inf).
Proof.
  intros Hq. split_and!.
  - by apply len_generate_points.
  - apply NoDup_generate_points.
  - apply elem_of_generate_points.
Qed.

Lemma points_are_enumerated_once_witness :
  0 ≤ 3 ∧
  len (generate_points 3) = 3 * 3 + 3 + 1 ∧
  NoDup (generate_points 3) ∧
  ∀ p, p ∈ generate_points 3 ↔
    (∃ x y, p = (Num x, Num y) ∧ 0 ≤ x < 3 ∧ 0 ≤ y < 3) ∨
    (∃ x, p = (Num x, Inf) ∧ 0 ≤ x < 3) ∨
    p = (Inf, Inf).
Proof. split; [lia|]. apply (points_are_enumerated_once 3). lia. Defined.

(** X2. The search by coordinates inverts the enumeration: looking up the
    coordinates of the point at position [k] answers [k], and the search
    answers [-1] exactly for coordinates that are not those of a point of
    the plane. *)
Theorem findIndex_inverts_the_enumeration (q : Z) :
  (∀ (k : nat) a b,
     generate_points q !! k = Some (a, b) →
     findIndex (at_coords a b) (generate_points q) = Z.of_nat k) ∧
  (∀ a b,
     findIndex (at_coords a b) (generate_points q) = -1 ↔
     (a, b) ∉ generate_points q).
Proof.
  split.
  - intros k a b Hk. apply findIndex_lookup; [apply NoDup_generate_points|done].
  - intros a b. unfold findIndex. rewrite findIndex_from_none by done. split.
    + intros Hall Hin. apply Hall in Hin.
      by rewrite (proj2 (at_coords_true a b (a, b))) in Hin.
    + intros Hnot p Hp. destruct (at_coords a b p) eqn:Hab; [|done].
      apply at_coords_true in Hab as ->. done.
Qed.

(** ** The lines *)

(** X3. For every order [q ≥ 0], prime or not, the deck has [q² + q + 1]
    cards and each card carries [q + 1] point indices of [0 .. q² + q], no
    index twice: no search of the builder ever answers [-1]. *)
Theorem every_deck_has_the_right_shape (q : Z) :
  0 ≤ q →
  ∃ plane out,
    constructProjectivePlane q = (Normal plane, out) ∧
    len plane = q * q + q + 1 ∧
    ∀ c, c ∈ plane →
      len c = q + 1 ∧ NoDup c ∧ ∀ s, s ∈ c → 0 ≤ s ≤ q * q + q.
Proof.
  intros Hq. eexists _, _. split; [apply constructProjectivePlane_run|].
  split; [by apply len_generate_lines|].
  intros c (d & Hd & ->)%elem_of_deck; [|done]. split_and!.
  - by apply len_line_of.
  - by apply NoDup_line_of.
  - intros s. by apply line_of_in_range.
Qed.

Lemma every_deck_has_the_right_shape_witness :
  0 ≤ 4 ∧
  ∃ plane out,
    constructProjectivePlane 4 = (Normal plane, out) ∧
    len plane = 4 * 4 + 4 + 1 ∧
    ∀ c, c ∈ plane →
      len c = 4 + 1 ∧ NoDup c ∧ ∀ s, s ∈ c → 0 ≤ s ≤ 4 * 4 + 4.
Proof. split; [lia|]. apply (every_deck_has_the_right_shape 4). lia. Defined.

(** X4. For every order [q ≥ 0], prime or not, the cards use every point
    index: the symbols on the cards are exactly the numbers [0 .. q² + q],
    [q² + q + 1] distinct symbols in all. *)
Theorem every_deck_uses_every_index (q : Z) :
  0 ≤ q →
  ∃ plane out,
    constructProjectivePlane q = (Normal plane, out) ∧
    distinct_symbols plane = q * q + q + 1 ∧
    ∀ s, (∃ c, c ∈ plane ∧ s ∈ c) ↔ 0 ≤ s ≤ q * q + q.
Proof.
  intros Hq. eexists _, _. split; [apply constructProjectivePlane_run|].
  split; [by apply deck_distinct_symbols|intros s; by apply deck_symbols].
Qed.

Lemma every_deck_uses_every_index_witness :
  0 ≤ 6 ∧
  ∃ plane out,
    constructProjectivePlane 6 = (Normal plane, out) ∧
    distinct_symbols plane = 6 * 6 + 6 + 1 ∧
    ∀ s, (∃ c, c ∈ plane ∧ s ∈ c) ↔ 0 ≤ s ≤ 6 * 6 + 6.
Proof. split; [lia|]. apply (every_deck_uses_every_index 6). lia. Defined.

(** ** The order of the plane *)

(** X5. For every prime order [q] the deck is a valid deck of order [q]:
    [q² + q + 1] cards of [q + 1] distinct symbols, any two distinct cards
    sharing exactly one symbol, [q² + q + 1] symbols in all; and the
    self-check prints no error, only the final log. *)
Theorem prime_order_gives_a_valid_deck (q : Z) :
  Z.prime q →
  ∃ plane,
    constructProjectivePlane q =
      (Normal plane, [ConsoleLogPlane "Generated plane:" plane]) ∧
    valid_deck q plane.
Proof.
  intros Hp. eexists. split; [|by apply prime_deck_valid].
  rewrite constructProjectivePlane_run.
  by rewrite (valid_deck_build_silent q _ (prime_deck_valid q Hp)).
Qed.

Lemma prime_order_gives_a_valid_deck_witness :
  Z.prime 3 ∧
  ∃ plane,
    constructProjectivePlane 3 =
      (Normal plane, [ConsoleLogPlane "Generated plane:" plane]) ∧
    valid_deck 3 plane.
Proof.
  split; [apply Z.prime_3|].
  apply (prime_order_gives_a_valid_deck 3). apply Z.prime_3.
Defined.

(** X6. For every composite order [q = a·b], with [a] and [b] at least 2,
    the deck is not valid: the cards at positions [0] and [a·q] both carry
    the symbols [0] and [b·q], and the self-check prints the error of that
    pair, with a count of at least 2, before it returns the deck. *)
Theorem composite_order_gives_a_double_meet (q a b : Z) :
  2 ≤ a → 2 ≤ b → q = a * b →
  ∃ plane out c0 c1,
    constructProjectivePlane q = (Normal plane, out) ∧
    plane !! 0%nat = Some c0 ∧
    plane !! Z.to_nat (a * q) = Some c1 ∧
    (0 ∈ c0 ∧ 0 ∈ c1) ∧ (b * q ∈ c0 ∧ b * q ∈ c1) ∧ 0 ≠ b * q ∧
    2 ≤ len (common c0 c1) ∧
    ConsoleError (build_pair_msg 0 (a * q) (len (common c0 c1))) ∈ out ∧
    ¬ valid_deck q plane.
Proof.
  intros Ha Hb Hq.
  destruct (composite_meet q a b Ha Hb Hq)
    as (c0 & c1 & H0 & H1 & [H00 H01] & [Hb0 Hb1] & Hne).
  assert (2 ≤ len (common c0 c1)) as Hk.
  { apply (two_members _ 0 (b * q)); [by apply elem_of_common..|done]. }
  eexists _, _, c0, c1. split; [apply constructProjectivePlane_run|].
  split_and!; try done; [|exact (composite_deck_invalid q a b Ha Hb Hq)].
  apply elem_of_app. left. apply list_elem_of_fmap_2.
  replace (a * q) with (Z.of_nat (Z.to_nat (a * q))) at 1 by nia.
  apply (build_pair_in _ _ _ 0 (Z.to_nat (a * q))); [nia|done..|lia].
Qed.

Lemma composite_order_gives_a_double_meet_witness :
  2 ≤ 2 ∧ 2 ≤ 3 ∧ 6 = 2 * 3 ∧
  ∃ plane out c0 c1,
    constructProjectivePlane 6 = (Normal plane, out) ∧
    plane !! 0%nat = Some c0 ∧
    plane !! Z.to_nat (2 * 6) = Some c1 ∧
    (0 ∈ c0 ∧ 0 ∈ c1) ∧ (3 * 6 ∈ c0 ∧ 3 * 6 ∈ c1) ∧ 0 ≠ 3 * 6 ∧
    2 ≤ len (common c0 c1) ∧
    ConsoleError (build_pair_msg 0 (2 * 6) (len (common c0 c1))) ∈ out ∧
    ¬ valid_deck 6 plane.
Proof.
  split_and!; [lia..|].
  apply (composite_order_gives_a_double_meet 6 2 3); lia.
Defined.

(** X7. For every order [q ≥ 2] the deck is valid exactly when [q] is prime,
    and the self-check prints nothing but the final log exactly when [q] is
    prime. *)
Theorem deck_is_valid_iff_order_is_prime (q : Z) :
  2 ≤ q →
  ∃ plane out,
    constructProjectivePlane q = (Normal plane, out) ∧
    (valid_deck q plane ↔ Z.prime q) ∧
    (out = [ConsoleLogPlane "Generated plane:" plane] ↔ Z.prime q).
Proof.
  intros Hq. eexists _, _. split; [apply constructProjectivePlane_run|].
  destruct (prime_dec q) as [Hp%prime_alt|Hnp].
  - split; (split; [done|intros _]); [by apply prime_deck_valid|].
    by rewrite (valid_deck_build_silent q _ (prime_deck_valid q Hp)).
  - assert (¬ Z.prime q) as Hnp' by (by rewrite prime_alt).
    destruct (not_prime_divide q ltac:(lia) Hnp) as (a & Ha & [b Hb]).
    assert (2 ≤ b) by nia.
    assert (q = a * b) as Hab by lia.
    split; (split; [intros Hv|done]); destruct Hnp'.
    + destruct (composite_deck_invalid q a b); (done || lia).
    + destruct (composite_meet q a b ltac:(lia) ltac:(lia) Hab)
        as (c0 & c1 & H0 & H1 & [H00 H01] & [Hb0 Hb1] & Hne).
      assert (build_diagnostics q (q * q + q + 1)
                (generate_lines q (generate_points q)) = []) as Hnil.
      { destruct (build_diagnostics _ _ _); [done|]. discriminate Hv. }
      apply build_diagnostics_nil in Hnil as (_ & _ & Hp).
      pose proof (Hp 0%nat (Z.to_nat (a * q)) c0 c1 ltac:(nia) H0 H1) as Hone.
      assert (2 ≤ len (common c0 c1)) as Htwo
        by (apply (two_members _ 0 (b * q)); [by apply elem_of_common..|done]).
      lia.
Qed.

Lemma deck_is_valid_iff_order_is_prime_witness :
  2 ≤ 4 ∧
  ∃ plane out,
    constructProjectivePlane 4 = (Normal plane, out) ∧
    (valid_deck 4 plane ↔ Z.prime 4) ∧
    (out = [ConsoleLogPlane "Generated plane:" plane] ↔ Z.prime 4).
Proof. split; [lia|]. apply (deck_is_valid_iff_order_is_prime 4). lia. Defined.

(** X8. An order [q ≤ 0] is not refused: the loops do not run, the only
    point is [(inf, inf)] and the deck is the single card [[0]].  The
    self-check is silent for [q = 0] and prints at least one error for
    [q < 0]; the deck is returned in both cases. *)
Theorem nonpositive_order_gives_one_card (q : Z) :
  q ≤ 0 →
  ∃ diagnostics,
    constructProjectivePlane q =
      (Normal [[0]],
       (ConsoleError <$> diagnostics) ++ [ConsoleLogPlane "Generated plane:" [[0]]]) ∧
    (diagnostics = [] ↔ q = 0).
Proof.
  intros Hq. eexists. split.
  - rewrite constructProjectivePlane_run. by rewrite nonpositive_order_deck.
  - rewrite build_diagnostics_nil. split.
    + intros (_ & Hl & _). specialize (Hl 0%nat [0] eq_refl).
      unfold len in Hl. simpl in Hl. lia.
    + intros ->. split_and!; [done| |].
      * by intros [|[|i]] c [= <-].
      * intros [|[|i]] [|[|j]] ci cj Hij; [lia|done..].
Qed.

Lemma nonpositive_order_gives_one_card_witness :
  -2 ≤ 0 ∧
  ∃ diagnostics,
    constructProjectivePlane (-2) =
      (Normal [[0]],
       (ConsoleError <$> diagnostics) ++ [ConsoleLogPlane "Generated plane:" [[0]]]) ∧
    (diagnostics = [] ↔ -2 = 0).
Proof. split; [lia|]. apply (nonpositive_order_gives_one_card (-2)). lia. Defined.

(** What the orders -2 and 1 give. *)
Example order_minus_2 :
  constructProjectivePlane (-2) =
    (Normal [[0]],
     [ConsoleError "Generated 1 cards instead of expected 3";
      ConsoleError "Line 0 has 1 points instead of -1";
      ConsoleLogPlane "Generated plane:" [[0]]]).
Proof. vm_compute. reflexivity. Qed.

Example order_1 :
  constructProjectivePlane 1 =
    (Normal [[0; 1]; [0; 2]; [1; 2]],
     [ConsoleLogPlane "Generated plane:" [[0; 1]; [0; 2]; [1; 2]]]).
Proof. vm_compute. reflexivity. Qed.

(** ** The builder and the verifier together *)

(** X9. For every integer order [q], the verifier accepts the deck that the
    builder returns for [q] exactly when [q = 7]. *)
Theorem verifier_accepts_built_deck_iff_order_7 (q : Z) :
  ∃ plane out,
    constructProjectivePlane q = (Normal plane, out) ∧
    ((verifyProjectivePlane plane).1 = Normal true ↔ q = 7).
Proof.
  eexists _, _. split; [apply constructProjectivePlane_run|].
  rewrite verify_run. split.
  - case_bool_decide as Hd; [|done]. intros _.
    apply diagnostics_nil in Hd as (Hc & _). by apply len_deck.
  - intros ->. fold reference_deck.
    by rewrite (valid_deck_passes _ reference_deck_valid).
Qed.

(** ** The verifier and the order of symbols and cards *)

(** X10. The verifier does not look at the order of the symbols on a card:
    on two decks whose cards are, position by position, rearrangements of
    each other, it gives the same answer and prints the same report. *)
Theorem verifier_ignores_symbol_order {A} `{EqDecision A}
    (plane plane' : list (list A)) :
  Forall2 (≡ₚ) plane plane' →
  verifyProjectivePlane plane' = verifyProjectivePlane plane.
Proof.
  intros Hp. by rewrite !verify_run, (diagnostics_reordered_symbols _ _ Hp).
Qed.

Lemma verifier_ignores_symbol_order_witness :
  Forall2 (≡ₚ) [[1; 2; 3]; [3; 4]] [[3; 1; 2]; [4; 3]] ∧
  verifyProjectivePlane [[3; 1; 2]; [4; 3]]
  = verifyProjectivePlane [[1; 2; 3]; [3; 4]].
Proof.
  assert (Forall2 (≡ₚ) [[1; 2; 3]; [3; 4]] [[3; 1; 2]; [4; 3]]) as Hp.
  { constructor; [symmetry; apply (Permutation_cons_append [1; 2] 3)|].
    constructor; [apply perm_swap|]. constructor. }
  split; [exact Hp|].
  exact (verifier_ignores_symbol_order _ _ Hp).
Defined.

(** X11. On decks whose cards carry no repeated symbol, the answer of the
    verifier does not depend on the order of the cards. *)
Theorem verifier_ignores_card_order {A} `{EqDecision A}
    (plane plane' : list (list A)) :
  (∀ c, c ∈ plane → NoDup c) → plane ≡ₚ plane' →
  (verifyProjectivePlane plane').1 = (verifyProjectivePlane plane).1.
Proof.
  intros Hnd Hp.
  assert (∀ c, c ∈ plane' → NoDup c) as Hnd'
    by (intros c Hc; apply Hnd; by rewrite Hp).
  assert (diagnostics plane = [] ↔ diagnostics plane' = []) as Hiff.
  { rewrite !diagnostics_nil, <-!valid_deck_checks by done. split.
    - by apply valid_deck_Permutation.
    - by apply valid_deck_Permutation. }
  rewrite !verify_run. repeat case_bool_decide; naive_solver.
Qed.

Lemma verifier_ignores_card_order_witness :
  (∀ c, c ∈ [[1; 2]; [2; 3]] → NoDup c) ∧
  [[1; 2]; [2; 3]] ≡ₚ [[2; 3]; [1; 2]] ∧
  (verifyProjectivePlane [[2; 3]; [1; 2]]).1
  = (verifyProjectivePlane [[1; 2]; [2; 3]]).1.
Proof.
  assert (∀ c, c ∈ [[1; 2]; [2; 3]] → NoDup c) as Hnd.
  { apply Forall_forall. by_evaluation. }
  assert ([[1; 2]; [2; 3]] ≡ₚ [[2; 3]; [1; 2]]) as Hp by apply perm_swap.
  split_and!; [exact Hnd|exact Hp|].
  exact (verifier_ignores_card_order _ _ Hnd Hp).
Defined.

(** X12. The verifier does not check that the symbols of a card are
    distinct: it accepts a deck of 57 cards in which 56 cards repeat a
    symbol seven times, a deck that is not valid; and it rejects the same
    cards in the reverse order. *)
Theorem verifier_accepts_repeated_symbols :
  ∃ plane : list (list Z),
    (verifyProjectivePlane plane).1 = Normal true ∧
    ¬ valid_deck 7 plane ∧
    (∃ c, c ∈ plane ∧ ¬ NoDup c) ∧
    (verifyProjectivePlane (reverse plane)).1 = Normal false.
Proof.
  exists repeating_deck.
  assert (∃ c, c ∈ repeating_deck ∧ ¬ NoDup c) as Hrep.
  { exists (0 :: replicate 7 1). split; by_evaluation. }
  split_and!; [by vm_compute| |done|by vm_compute].
  intros (_ & Hs & _). destruct Hrep as (c & Hc & Hnd). by apply Hnd, Hs.
Qed.

(** ** The verifier: its answer and its report *)

(** X15. On every deck [verifyProjectivePlane] ends normally and answers
    [true] exactly when it gathered no diagnostic, that is when none of its
    four checks fails, the checks as it computes them: 57 cards, 8 entries
    on each card, exactly one entry of the earlier card of each pair found
    on the later one, 57 distinct symbols in all.  It goes through the whole
    deck: it gathers as many diagnostics as there are violations, and the
    diagnostic of every violating card or pair is among them, whatever was
    found before.  A deck that it accepts has 57 cards of 8 entries and 57
    symbols, any two cards sharing exactly one symbol; and on cards without
    a repeated symbol it accepts exactly the valid decks of order 7. *)
Theorem verifier_answer_and_diagnostics {A} `{EqDecision A} (plane : list (list A)) :
  ∃ errors,
    verify_errors plane = (Normal errors, []) ∧
    (verifyProjectivePlane plane).1 = Normal (bool_decide (errors = [])) ∧
    (errors = [] ↔
       count_ok plane ∧ sizes_ok plane ∧ pairs_ok plane ∧ union_ok plane) ∧
    length errors = violations plane ∧
    (¬ count_ok plane → msg_count (len plane) ∈ errors) ∧
    (∀ (i : nat) c, plane !! i = Some c → len c ≠ 8 →
       msg_card (Z.of_nat i) (len c) ∈ errors) ∧
    (∀ (i j : nat) ci cj, (i < j)%nat →
       plane !! i = Some ci → plane !! j = Some cj → len (common ci cj) ≠ 1 →
       msg_pair (Z.of_nat i) (Z.of_nat j) (len (common ci cj)) ∈ errors) ∧
    (¬ union_ok plane → msg_union (distinct_symbols plane) ∈ errors) ∧
    (errors = [] →
       len plane = 57 ∧
       (∀ c, c ∈ plane → len c = 8) ∧
       (∀ (i j : nat) ci cj, i ≠ j →
          plane !! i = Some ci → plane !! j = Some cj → share_exactly_one ci cj) ∧
       distinct_symbols plane = 57) ∧
    ((∀ c, c ∈ plane → NoDup c) → errors = [] ↔ valid_deck 7 plane).
Proof.
  exists (diagnostics plane). split_and!.
  - apply verify_errors_eq.
  - rewrite verify_run. by case_bool_decide.
  - apply diagnostics_nil.
  - apply diagnostics_length.
  - apply diag_count_in.
  - apply diag_card_in.
  - apply diag_pair_in.
  - apply diag_union_in.
  - intros (Hc & Hs & Hp & Hu)%diagnostics_nil. split_and!; [done| | |done].
    + intros c [i Hi]%list_elem_of_lookup_1. by eapply Hs.
    + by apply pairs_ok_sound.
  - intros Hnd. by rewrite diagnostics_nil, valid_deck_checks.
Qed.

(** A deck of two cards, of two and of one symbol: five violations, five
    diagnostics. *)
Example verifier_gathers_every_diagnostic :
  verifyProjectivePlane [[1; 2]; [3]] =
    (Normal false,
     [ConsoleError "Verification failed:";
      ConsoleError "Total number of cards is 2 instead of 57";
      ConsoleError "Card 0 has 2 symbols instead of 8";
      ConsoleError "Cards 0 and 1 share 0 symbols instead of 1";
      ConsoleError "Card 1 has 1 symbols instead of 8";
      ConsoleError "Total number of unique symbols is 3 instead of 57"]).
Proof. vm_compute. reflexivity. Qed.

(** The pair check counts entries: a symbol that the earlier card repeats
    and the later card carries is counted at each of its places. *)
Example pair_check_counts_entries :
  pair_diag 0 1 [1; 1; 2] [1; 3] = ["Cards 0 and 1 share 2 symbols instead of 1"].
Proof. vm_compute. reflexivity. Qed.

(** ** How many cards carry a symbol *)

(** X13. For every order [q ≥ 0], prime or not, every symbol [0 .. q² + q]
    is on exactly [q + 1] cards of the deck (eight cards for the order 7). *)
Theorem every_symbol_is_on_q_plus_1_cards (q s : Z) :
  0 ≤ q → 0 ≤ s ≤ q * q + q →
  ∃ plane out,
    constructProjectivePlane q = (Normal plane, out) ∧
    len (filter (λ c, s ∈ c) plane) = q + 1.
Proof.
  intros Hq Hs. eexists _, _. split; [apply constructProjectivePlane_run|].
  by apply cards_through.
Qed.

Lemma every_symbol_is_on_q_plus_1_cards_witness :
  0 ≤ 4 ∧ 0 ≤ 9 ≤ 4 * 4 + 4 ∧
  ∃ plane out,
    constructProjectivePlane 4 = (Normal plane, out) ∧
    len (filter (λ c, 9 ∈ c) plane) = 4 + 1.
Proof.
  split_and!; [lia..|].
  apply (every_symbol_is_on_q_plus_1_cards 4 9); lia.
Defined.

(** ** The button *)

(** X14. [handleVerify] verifies the cards of the state again: it never
    throws and never changes the cards, and it sets the status to
    ["Verification passed!"] or ["Verification failed."] as the verifier
    answers.  Run on the state that the start-up effect leaves, it leaves
    that very state; run before, on the state without cards, it reports a
    failure. *)
Theorem handleVerify_verifies_again :
  (∀ st, ∃ passed out,
     verifyProjectivePlane (cardSymbols st) = (Normal passed, out) ∧
     handleVerify st =
       (Normal (AppState (cardSymbols st)
                  (Some (if passed then "Verification passed!"
                         else "Verification failed."))),
        out)) ∧
  (∀ st, App_startup.1 = Normal st →
     handleVerify st =
       (Normal st, [ConsoleLog "Verification passed successfully!"])) ∧
  handleVerify App_initial =
    (Normal (AppState [] (Some "Verification failed.")),
     [ConsoleError "Verification failed:";
      ConsoleError "Total number of cards is 0 instead of 57";
      ConsoleError "Total number of unique symbols is 0 instead of 57"]).
Proof.
  split_and!.
  - intros st. unfold handleVerify. rewrite verify_run.
    case_bool_decide; eexists _, _; (split; [reflexivity|]);
      rewrite bind_out; simpl; by rewrite ?app_nil_r.
  - intros st Hst.
    assert (App_startup.1 =
              Normal (AppState (relabel symbol_at reference_deck)
                        (Some "Verification passed!"))) as Hrun
      by (by vm_compute).
    rewrite Hrun in Hst.
    assert (st = AppState (relabel symbol_at reference_deck)
                   (Some "Verification passed!")) as -> by congruence.
    rewrite handleVerify_eq.
    rewrite verify_relabel by apply symbol_at_inj_on_reference_deck.
    rewrite verify_run, (valid_deck_passes _ reference_deck_valid).
    reflexivity.
  - by vm_compute.
Qed.
